(** * Smart parking service: pricing rule and request handlers

    A shallow embedding of [ee.py]: the five tables of the schema, the
    pricing helper [calculate_price] and the five route handlers, with the
    properties of the design document proved about them.

    Conventions.
    - A Python [float] is a binary64 value: Rocq's primitive [float], with
      the operations in the order the source applies them.  A JSON number
      stands for the binary64 value read for it; what a [Float] column keeps
      of it is [Float_column].
    - A request body is the value [request.get_json()] returned: a [json]
      value; a JSON object is a finite map from strings.
    - A handler is a computation over the committed database that either
      returns a response or raises a Python exception; nothing is written
      before [db.session.commit()].
    - Collaborators outside the file (the geodesic distance and the
      exceptions it raises on locations it cannot read, the storage engine's
      treatment of values outside a column's type) are the fields of the
      class [Collaborators]: every theorem holds for any of them. *)

From Stdlib Require Import ZArith Bool String DecimalString Floats.
From stdpp Require Import gmap strings list.

Set Warnings "-inexact-float,-register-all".

Open Scope Z_scope.

(** ** JSON values and Python exceptions *)

Inductive json : Type :=
| JNull
| JBool (b : bool)
| JNum (f : float)
| JStr (s : string)
| JArr (l : list json)
| JObj (m : gmap string json).

Inductive exn : Type :=
| KeyError (key : string)
| TypeError
| AttributeError
| ValueError
| OverflowError
| IntegrityError
| StatementError.

Inductive result (A : Type) : Type :=
| Ok (a : A)
| Raise (e : exn).
Arguments Ok {A} a.
Arguments Raise {A} e.

#[global] Instance result_ret : MRet result := λ A a, Ok a.
#[global] Instance result_bind : MBind result := λ A B k r,
  match r with
  | Ok a => k a
  | Raise e => Raise e
  end.

(** [value is None] *)
Definition is_None (v : json) : bool :=
  match v with JNull => true | _ => false end.

(** [d[key]]: a missing key raises [KeyError]; a value that is not a dict
    cannot be indexed by a string. *)
Definition getitem (d : json) (key : string) : result json :=
  match d with
  | JObj m =>
      match m !! key with
      | Some v => Ok v
      | None => Raise (KeyError key)
      end
  | _ => Raise TypeError
  end.

(** [d.get(key, default)]: only a dict has the method. *)
Definition get (d : json) (key : string) (default : json) : result json :=
  match d with
  | JObj m =>
      match m !! key with
      | Some v => Ok v
      | None => Ok default
      end
  | _ => Raise AttributeError
  end.

(** ** The schema (lines 15-42) *)

Module Emission.
Record t : Type := mk { id : Z; co2 : float; nox : float; car_id : Z }.
End Emission.

Module Car.
Record t : Type :=
  mk { id : Z; residence_location : json; current_location : json }.
End Car.

Module CarPricing.
Record t : Type := mk { id : Z; car_id : Z; pricing_id : Z; price : float }.
End CarPricing.

Module Pricing.
Record t : Type := mk { id : Z; parking_space_id : Z }.
End Pricing.

Module ParkingSpace.
Record t : Type := mk { id : Z; location : json; status : bool }.
End ParkingSpace.

(** The committed database: one list of rows per table, in insertion order. *)
Record Store : Type := mkStore {
  cars : list Car.t;
  emissions : list Emission.t;
  parking_spaces : list ParkingSpace.t;
  pricings : list Pricing.t;
  car_pricings : list CarPricing.t
}.

Definition empty_store : Store := mkStore [] [] [] [] [].

(** [db.relationship('Emission', backref='car', uselist=False)] *)
Definition Car_emission (db : Store) (car : Car.t) : option Emission.t :=
  List.find (λ e, Emission.car_id e =? Car.id car) (emissions db).

(** [db.relationship('Pricing', backref='parking_space', uselist=False)] *)
Definition ParkingSpace_pricing (db : Store) (space : ParkingSpace.t)
  : option Pricing.t :=
  List.find (λ p, Pricing.parking_space_id p =? ParkingSpace.id space)
            (pricings db).

(** [Car.query.get(pk)], for the key a query-string value denotes *)
Definition Car_query_get (db : Store) (pk : Z) : option Car.t :=
  List.find (λ c, Car.id c =? pk) (cars db).

(** the row of the space table stored under a key, if any *)
Definition ParkingSpace_row (db : Store) (pk : Z) : option ParkingSpace.t :=
  List.find (λ s, ParkingSpace.id s =? pk) (parking_spaces db).

(** the integers the storage engine can bind: 64 bits, signed *)
Definition sqlite_integer (n : Z) : bool :=
  (- 2 ^ 63 <=? n) && (n <? 2 ^ 63).

(** [ParkingSpace.query.get(pk)], for the Python [int] of the route: a key
    the engine cannot bind raises [OverflowError] *)
Definition ParkingSpace_query_get (db : Store) (pk : Z)
  : result (option ParkingSpace.t) :=
  if sqlite_integer pk then Ok (ParkingSpace_row db pk)
  else Raise OverflowError.

(** An integer primary key left unset takes one more than the largest key in
    use, starting from 1. *)
Definition next_id (ids : list Z) : Z := 1 + foldr Z.max 0 ids.

(** ** Collaborators outside the source *)

Class Collaborators : Type := {
  (** [geodesic(coord1, coord2).km]: the distance in kilometres, or the
      exception raised on a location that cannot be read as a point; stored
      locations are not validated *)
  geodesic_km : json → json → result float;
  (** what a [Boolean] column makes of a value that is neither null nor a
      JSON boolean ([None]: the statement is refused) *)
  Boolean_other : json → option bool;
  (** what a [Float] column makes of a value that is neither null nor a
      JSON number ([None]: the statement is refused) *)
  Float_other : json → option float;
  (** the primary key a query-string value denotes, if any *)
  pk_of_string : string → option Z
}.

(** ** Pricing (lines 54-81) *)

Section PricingRule.
Context `{Collaborators}.

Definition calculate_distance (coord1 coord2 : json) : result float :=
  geodesic_km coord1 coord2.

Definition calculate_price (db : Store) (parking_space : ParkingSpace.t)
    (car : Car.t) : result (option float) :=
  let base_price := 10.0%float in
  let price := base_price in
  if negb (ParkingSpace.status parking_space) then Ok None
  else
    car_to_spot_distance ←
      calculate_distance (Car.current_location car)
                         (ParkingSpace.location parking_space);
    let price :=
      if (car_to_spot_distance <? 2.0)%float then (price - 2.0)%float
      else price in
    residence_to_spot_distance ←
      calculate_distance (Car.residence_location car)
                         (ParkingSpace.location parking_space);
    let price :=
      if (residence_to_spot_distance <? 2.0)%float then (price - 2.0)%float
      else price in
    match Car_emission db car with
    | None => Raise AttributeError
    | Some emission =>
        let price :=
          (price + (Emission.co2 emission + Emission.nox emission) * 0.1)%float in
        Ok (Some price)
    end.

End PricingRule.

(** ** Handlers as computations over the database *)

Definition M (A : Type) : Type := Store → result A * Store.

#[global] Instance M_ret : MRet M := λ A a db, (Ok a, db).
#[global] Instance M_bind : MBind M := λ A B k m db,
  match m db with
  | (Ok a, db') => k a db'
  | (Raise e, db') => (Raise e, db')
  end.

(** a pure step that may raise *)
Definition lift {A : Type} (r : result A) : M A := λ db, (r, db).

(** a read of the committed state *)
Definition query {A : Type} (f : Store → A) : M A := λ db, (Ok (f db), db).

(** a read of the committed state that may raise *)
Definition read {A : Type} (f : Store → result A) : M A := λ db, (f db, db).

(** ** Response bodies *)

Module SpaceJson.
Record t : Type :=
  mk { id : Z; location : json; status : string; price : option float }.
End SpaceJson.

Module CarJson.
Record t : Type :=
  mk { id : Z; co2_emission : float; nox_emission : float;
       residence_location : json; current_location : json }.
End CarJson.

Inductive body : Type :=
| ErrorBody (error : string)
| SpaceBody (space : SpaceJson.t)
| SpaceListBody (spaces : list SpaceJson.t)
| CarListBody (cars : list CarJson.t)
| IdBody (id : Z).

(** [return jsonify(body), code] *)
Definition response : Type := body * Z.

(** [ParkingSpace.serialize] (lines 44-51).  [Pricing] declares no [price]
    attribute, so the branch taken when a pricing row exists raises. *)
Definition serialize (self : ParkingSpace.t) : M SpaceJson.t :=
  price ← read (λ db,
    match ParkingSpace_pricing db self with
    | Some pricing => Raise AttributeError
    | None => Ok None
    end);
  mret (SpaceJson.mk (ParkingSpace.id self) (ParkingSpace.location self)
          (if ParkingSpace.status self then "available" else "not available")
          price).

(** ** Columns and commits *)

Section Service.
Context `{Collaborators}.

(** [PickleType, nullable=False] *)
Definition PickleType_column (v : json) : result json :=
  if is_None v then Raise IntegrityError else Ok v.

(** [Boolean, nullable=False]; on insert an unset value takes the column's
    [default] *)
Definition Boolean_column (default : option bool) (v : json) : result bool :=
  match v with
  | JBool b => Ok b
  | JNull =>
      match default with
      | Some b => Ok b
      | None => Raise IntegrityError
      end
  | _ =>
      match Boolean_other v with
      | Some b => Ok b
      | None => Raise StatementError
      end
  end.

(** what the engine keeps of a number: a zero of either sign is kept as
    the integer 0 and read back as [0.0] *)
Definition Float_stored (f : float) : float :=
  if (f =? 0)%float then 0%float else f.

(** [Float, nullable=False]; the engine binds a NaN as NULL *)
Definition Float_column (v : json) : result float :=
  match v with
  | JNum f =>
      if (f =? f)%float then Ok (Float_stored f) else Raise IntegrityError
  | JNull => Raise IntegrityError
  | _ =>
      match Float_other v with
      | Some f => Ok f
      | None => Raise StatementError
      end
  end.

(** lines 107-112: [ParkingSpace(...)], [db.session.add], [db.session.commit] *)
Definition insert_parking_space (location status : json) : M ParkingSpace.t :=
  λ db,
  match (s ← Boolean_column (Some true) status;
         l ← PickleType_column location;
         mret (l, s)) with
  | Ok (l, s) =>
      let new_space :=
        ParkingSpace.mk (next_id (ParkingSpace.id <$> parking_spaces db)) l s in
      (Ok new_space,
       mkStore (cars db) (emissions db) (parking_spaces db ++ [new_space])
               (pricings db) (car_pricings db))
  | Raise e => (Raise e, db)
  end.

(** lines 128-129: [parking_space.status = status], [db.session.commit];
    the result is the refreshed object *)
Definition update_status (parking_space : ParkingSpace.t) (status : json)
  : M ParkingSpace.t := λ db,
  match Boolean_column None status with
  | Ok b =>
      let set (s : ParkingSpace.t) :=
        ParkingSpace.mk (ParkingSpace.id s) (ParkingSpace.location s) b in
      (Ok (set parking_space),
       mkStore (cars db) (emissions db)
               ((λ s, if ParkingSpace.id s =? ParkingSpace.id parking_space
                      then set s else s) <$> parking_spaces db)
               (pricings db) (car_pricings db))
  | Raise e => (Raise e, db)
  end.

(** lines 148-159: [Car(...)], [Emission(..., car=new_car)], two
    [db.session.add] and one [db.session.commit]: both rows or none *)
Definition insert_car_with_emission
    (residence_location current_location co2 nox : json) : M Car.t := λ db,
  match (r ← PickleType_column residence_location;
         c ← PickleType_column current_location;
         x ← Float_column co2;
         y ← Float_column nox;
         mret (r, c, x, y)) with
  | Ok (r, c, x, y) =>
      let new_car := Car.mk (next_id (Car.id <$> cars db)) r c in
      let new_emission :=
        Emission.mk (next_id (Emission.id <$> emissions db)) x y
                    (Car.id new_car) in
      (Ok new_car,
       mkStore (cars db ++ [new_car]) (emissions db ++ [new_emission])
               (parking_spaces db) (pricings db) (car_pricings db))
  | Raise e => (Raise e, db)
  end.

(** ** Routes (lines 84-160) *)

(** [GET /api/v1/parking-spaces]; [car_id] is [request.args.get('car_id')] *)
Definition get_parking_spaces (car_id : option string) : M response :=
  car ← query (λ db, pk ← car_id ≫= pk_of_string; Car_query_get db pk);
  match car with
  | None => mret (ErrorBody "Car not found", 404)
  | Some car =>
      parking_spaces ←
        query (λ db, filter (λ s, ParkingSpace.status s = true)
                            (parking_spaces db));
      result ←
        mapM (λ space,
                price ← read (λ db, calculate_price db space car);
                mret (SpaceJson.mk (ParkingSpace.id space)
                        (ParkingSpace.location space) "available" price))
             parking_spaces;
      mret (SpaceListBody result, 200)
  end.

(** [POST /api/v1/parking-spaces]; [data] is [request.get_json()] *)
Definition add_parking_space (data : json) : M response :=
  location ← lift (getitem data "location");
  status ← lift (get data "status" (JBool true));
  new_space ← insert_parking_space location status;
  s ← serialize new_space;
  mret (SpaceBody s, 201).

(** [POST /api/v1/parking-spaces/<int:space_id>/status] *)
Definition update_parking_space_status (space_id : Z) (data : json)
  : M response :=
  parking_space ← read (λ db, ParkingSpace_query_get db space_id);
  match parking_space with
  | None => mret (ErrorBody "Parking space not found", 404)
  | Some parking_space =>
      status ← lift (get data "status" JNull);
      if is_None status then mret (ErrorBody "No status provided", 400)
      else
        parking_space ← update_status parking_space status;
        s ← serialize parking_space;
        mret (SpaceBody s, 200)
  end.

(** the dict of lines 136-142, given the row [car.emission] loads *)
Definition car_summary (car : Car.t) (emission : Emission.t) : CarJson.t :=
  CarJson.mk (Car.id car) (Emission.co2 emission) (Emission.nox emission)
             (Car.residence_location car) (Car.current_location car).

(** [GET /api/v1/cars] *)
Definition get_cars : M response :=
  cars ← query cars;
  l ← mapM (λ car,
              emission ← read (λ db,
                match Car_emission db car with
                | Some e => Ok e
                | None => Raise AttributeError
                end);
              mret (car_summary car emission))
           cars;
  mret (CarListBody l, 200).

(** [POST /api/v1/cars] *)
Definition add_car (data : json) : M response :=
  residence_location ← lift (getitem data "residence_location");
  current_location ← lift (getitem data "current_location");
  co2 ← lift (emission ← getitem data "emission"; getitem emission "co2");
  nox ← lift (emission ← getitem data "emission"; getitem emission "nox");
  new_car ← insert_car_with_emission residence_location current_location
                                      co2 nox;
  mret (IdBody (Car.id new_car), 201).

(** ** The route table *)

Inductive request : Type :=
| GetParkingSpaces (car_id : option string)
| AddParkingSpace (data : json)
| UpdateParkingSpaceStatus (space_id : Z) (data : json)
| GetCars
| AddCar (data : json).

Definition handle (r : request) : M response :=
  match r with
  | GetParkingSpaces car_id => get_parking_spaces car_id
  | AddParkingSpace data => add_parking_space data
  | UpdateParkingSpaceStatus space_id data =>
      update_parking_space_status space_id data
  | GetCars => get_cars
  | AddCar data => add_car data
  end.

(** the databases the service can be in: [db.create_all()] on a new file,
    then any sequence of requests, answered or failed *)
Inductive reachable : Store → Prop :=
| reachable_created : reachable empty_store
| reachable_handled db r : reachable db → reachable (handle r db).2.

End Service.

(** a computation that maintains a property of the database, whether it
    returns or raises *)
Definition preserves {A : Type} (I : Store → Prop) (m : M A) : Prop :=
  ∀ db, I db → I (m db).2.

(** ** The price of the design document

    §8 of the design document gives the price of an available space as
    [10.0 − 2.0·[car_to_spot<2.0] − 2.0·[residence_to_spot<2.0] + 0.1·(co2+nox)].
    [spec_price] is that formula, term by term, over binary64. *)

Definition indicator (b : bool) : float := if b then 1.0%float else 0.0%float.

Definition spec_price (car_to_spot residence_to_spot co2 nox : float) : float :=
  (10.0 - 2.0 * indicator (car_to_spot <? 2.0)
        - 2.0 * indicator (residence_to_spot <? 2.0)
        + 0.1 * (co2 + nox))%float.

(** ** Schema constraints

    Primary keys are unique (lines 22, 39), an emission row and a pricing row
    point to an existing row (lines 19, 35), and every car has an emission
    row, as [add_car] makes them. *)

Definition wf_store (db : Store) : Prop :=
  NoDup (Car.id <$> cars db)
  ∧ NoDup (ParkingSpace.id <$> parking_spaces db)
  ∧ Forall (λ e, Emission.car_id e ∈ Car.id <$> cars db) (emissions db)
  ∧ Forall (λ c, is_Some (Car_emission db c)) (cars db)
  ∧ Forall (λ p, Pricing.parking_space_id p
                   ∈ ParkingSpace.id <$> parking_spaces db) (pricings db).

#[global] Instance wf_store_dec db : Decision (wf_store db).
Proof. unfold wf_store. apply _. Defined.

(** ** Spaces a car can be quoted for *)

Section Quotable.
Context `{Collaborators}.

(** both distances of lines 67 and 73 are returned *)
Definition distances_known (car : Car.t) (space : ParkingSpace.t) : Prop :=
  ∃ d1 d2,
    calculate_distance (Car.current_location car)
                       (ParkingSpace.location space) = Ok d1
    ∧ calculate_distance (Car.residence_location car)
                         (ParkingSpace.location space) = Ok d2.

(** the price of the entry the listing builds for a space, where
    [calculate_price] returned one *)
Definition quote (db : Store) (car : Car.t) (space : ParkingSpace.t)
  : option float :=
  match calculate_price db space car with
  | Ok price => price
  | Raise _ => None
  end.

End Quotable.

(** ** A small world for the examples

    A location is a pair [[latitude, longitude]] of numbers, the latitude
    within 90 degrees; any other value raises [ValueError].  The distance is
    111 km per degree along the meridian plus 111 km per degree along the
    parallel.  A key in a query string is a decimal numeral; values outside
    a column's type are refused. *)

Definition point (latitude longitude : float) : json :=
  JArr [JNum latitude; JNum longitude].

Definition flat_point (v : json) : option (float * float) :=
  match v with
  | JArr [JNum latitude; JNum longitude] =>
      if (abs latitude <=? 90)%float then Some (latitude, longitude) else None
  | _ => None
  end.

Definition flat_world : Collaborators := {|
  geodesic_km := λ a b,
    match flat_point a, flat_point b with
    | Some (x1, y1), Some (x2, y2) =>
        Ok (111 * (abs (x1 - x2) + abs (y1 - y2)))%float
    | _, _ => Raise ValueError
    end;
  Boolean_other := λ _, None;
  Float_other := λ _, None;
  pk_of_string := λ s, Z.of_uint <$> NilEmpty.uint_of_string s
|}.

(** one car living about 5.5 km north of the free space and standing about
    1.1 km north of it, with emissions 3.0 and 2.0; a taken space between *)
Definition demo_car : Car.t := Car.mk 1 (point 41.05 29.0) (point 41.01 29.0).
Definition demo_emission : Emission.t := Emission.mk 1 3.0 2.0 1.
Definition free_space : ParkingSpace.t :=
  ParkingSpace.mk 1 (point 41.0 29.0) true.
Definition taken_space : ParkingSpace.t :=
  ParkingSpace.mk 2 (point 41.02 29.0) false.

Definition demo_store : Store :=
  mkStore [demo_car] [demo_emission] [free_space; taken_space] [] [].

(** the same car with emissions -200.0 and 0.0, which no route refuses *)
Definition credited_store : Store :=
  mkStore [demo_car] [Emission.mk 1 (-200) 0 1] [free_space; taken_space] [] [].

(** the same spaces with a pricing row attached to the first, as a write
    outside the routes would leave them *)
Definition priced_store : Store :=
  mkStore [] [] [free_space; taken_space] [Pricing.mk 1 1] [].

(** the example database with the emission row of its car missing, as a
    write outside the routes would leave it *)
Definition orphan_store : Store :=
  mkStore [demo_car] [] [free_space; taken_space] [] [].

(** the body [{"residence_location": [41.0, 29.0],
    "current_location": [41.0, 29.005],
    "emission": {"co2": 1.0, "nox": 0.5}}] *)
Definition demo_emission_body : gmap string json :=
  <["co2" := JNum 1.0]> {["nox" := JNum 0.5]}.

Definition demo_car_body : gmap string json :=
  <["residence_location" := point 41.0 29.0]>
    (<["current_location" := point 41.0 29.005]>
       {["emission" := JObj demo_emission_body]}).

(** a space about 22 km north of the free one *)
Definition far_point : json := point 41.2 29.0.

(** * Properties *)

(** ** Binary64 multiplication commutes *)

Lemma SFmul_comm prec emax (x y : spec_float) :
  SFmul prec emax x y = SFmul prec emax y x.
Proof.
  destruct x as [sx|sx| |sx mx ex], y as [sy|sy| |sy my ey]; simpl;
    try reflexivity; try (rewrite xorb_comm; reflexivity).
  rewrite xorb_comm, Pos.mul_comm, Z.add_comm. reflexivity.
Qed.

Lemma float_mul_comm (x y : float) : (x * y)%float = (y * x)%float.
Proof. apply Prim2SF_inj. rewrite !mul_spec. apply SFmul_comm. Qed.

(** ** Binary64 comparisons *)

Lemma SFcompare_antisym (x y : spec_float) :
  SFcompare y x = CompOpp <$> SFcompare x y.
Proof.
  destruct x as [sx|sx| |sx mx ex], y as [sy|sy| |sy my ey]; simpl;
    try reflexivity; try (by destruct sx); try (by destruct sy);
    try (by destruct sx, sy).
  destruct sx, sy; simpl; try reflexivity;
    rewrite (Z.compare_antisym ex ey);
    destruct (ex ?= ey)%Z; simpl; try reflexivity;
    change (Pos.compare_cont Eq my mx) with (Pos.compare my mx);
    change (Pos.compare_cont Eq mx my) with (Pos.compare mx my);
    rewrite (Pos.compare_antisym mx my);
    by destruct (Pos.compare mx my).
Qed.

(** ** Pricing *)

Section PricingFacts.
Context `{Collaborators}.

Lemma calculate_price_formula db space car emission (d1 d2 : float) :
  ParkingSpace.status space = true →
  calculate_distance (Car.current_location car)
                     (ParkingSpace.location space) = Ok d1 →
  calculate_distance (Car.residence_location car)
                     (ParkingSpace.location space) = Ok d2 →
  Car_emission db car = Some emission →
  calculate_price db space car =
    Ok (Some (spec_price d1 d2
                (Emission.co2 emission) (Emission.nox emission))).
Proof.
  intros Hstatus Hcar Hresidence Hemission. unfold calculate_price, spec_price.
  rewrite Hstatus, Hcar. simpl. rewrite Hresidence. simpl.
  rewrite Hemission. rewrite (float_mul_comm 0.1).
  destruct (d1 <? 2)%float, (d2 <? 2)%float; reflexivity.
Qed.

Lemma spec_price_below_zero (d1 d2 : float) :
  (spec_price d1 d2 (-200) 0 <? 0)%float = true.
Proof.
  unfold spec_price.
  destruct (d1 <? 2)%float, (d2 <? 2)%float; reflexivity.
Qed.

(** C1: for an available space and a car whose two distances to it
    [geodesic] returns, [calculate_price] returns the base price 10.0, less
    2.0 when the car stands strictly within 2.0 km of the space, less 2.0
    when its residence lies strictly within 2.0 km of the space, plus 0.1
    times (co2 + nox), in binary64; no floor is applied: with emissions
    -200.0 and 0.0 the price returned is negative, whatever the distances. *)
Theorem calculate_price_available db space car emission (d1 d2 : float) :
  ParkingSpace.status space = true →
  calculate_distance (Car.current_location car)
                     (ParkingSpace.location space) = Ok d1 →
  calculate_distance (Car.residence_location car)
                     (ParkingSpace.location space) = Ok d2 →
  Car_emission db car = Some emission →
  calculate_price db space car
  = Ok (Some (spec_price d1 d2
                (Emission.co2 emission) (Emission.nox emission)))
  ∧ (Emission.co2 emission = (-200)%float →
     Emission.nox emission = 0%float →
     ∃ price,
       calculate_price db space car = Ok (Some price)
       ∧ (price <? 0)%float = true).
Proof.
  intros Hstatus Hcar Hresidence Hemission.
  pose proof (calculate_price_formula db space car emission d1 d2
                Hstatus Hcar Hresidence Hemission) as Hprice.
  split; [done|]. intros Hco2 Hnox. eexists. split; [exact Hprice|].
  rewrite Hco2, Hnox. apply spec_price_below_zero.
Qed.

(** C2: for a space whose status is false, [calculate_price] returns the
    unavailable indicator [None], whatever the car, the distances and the
    emission values. *)
Theorem calculate_price_unavailable db space car :
  ParkingSpace.status space = false →
  calculate_price db space car = Ok None.
Proof. intros Hstatus. unfold calculate_price. rewrite Hstatus. reflexivity. Qed.

End PricingFacts.

(** the worked example of the design document: 10 − 2 − 0 + 0.1·5 = 8.5 *)
Example calculate_price_example :
  @calculate_price flat_world demo_store free_space demo_car = Ok (Some 8.5%float).
Proof. reflexivity. Qed.

Lemma calculate_price_available_witness :
  (@calculate_price flat_world demo_store free_space demo_car
   = Ok (Some (spec_price (111 * (abs (41.01 - 41.0) + abs (29.0 - 29.0)))
                 (111 * (abs (41.05 - 41.0) + abs (29.0 - 29.0))) 3.0 2.0))
   ∧ ((3.0 = -200)%float → (2.0 = 0)%float →
      ∃ price,
        @calculate_price flat_world demo_store free_space demo_car
        = Ok (Some price)
        ∧ (price <? 0)%float = true))
  ∧ ∃ price,
      @calculate_price flat_world credited_store free_space demo_car
      = Ok (Some price)
      ∧ (price <? 0)%float = true.
Proof.
  split.
  - apply (@calculate_price_available flat_world demo_store free_space
             demo_car demo_emission); reflexivity.
  - apply (proj2 (@calculate_price_available flat_world credited_store
                    free_space demo_car (Emission.mk 1 (-200) 0 1)
                    _ _ eq_refl eq_refl eq_refl eq_refl));
      reflexivity.
Defined.

Lemma calculate_price_unavailable_witness :
  @calculate_price flat_world demo_store taken_space demo_car = Ok None.
Proof.
  apply (@calculate_price_unavailable flat_world demo_store taken_space demo_car).
  reflexivity.
Defined.

(** ** Running a handler *)

Lemma M_bind_run {A B : Type} (m : M A) (k : A → M B) db :
  (m ≫= k) db =
  match m db with
  | (Ok a, db') => k a db'
  | (Raise e, db') => (Raise e, db')
  end.
Proof. reflexivity. Qed.

Lemma M_ret_run {A : Type} (a : A) db : (mret a : M A) db = (Ok a, db).
Proof. reflexivity. Qed.

Lemma result_bind_Ok {A B : Type} (a : A) (k : A → result B) :
  Ok a ≫= k = k a.
Proof. reflexivity. Qed.

Lemma result_bind_Raise {A B : Type} (e : exn) (k : A → result B) :
  Raise e ≫= k = Raise e.
Proof. reflexivity. Qed.

Ltac run :=
  repeat first
    [ rewrite M_bind_run | rewrite M_ret_run
    | rewrite result_bind_Ok | rewrite result_bind_Raise
    | progress unfold lift, query, read
    | progress simpl ].

Lemma find_id_fresh {A : Type} (key : A → Z) (l : list A) :
  List.find (λ x, key x =? next_id (key <$> l)) l = None.
Proof.
  assert (Hle : ∀ pk, foldr Z.max 0 (key <$> l) < pk →
                      List.find (λ x, key x =? pk) l = None).
  { induction l as [|x l IH]; intros pk Hpk; csimpl in *; [done|].
    destruct (Z.eqb_spec (key x) pk) as [Heq|_]; [lia|].
    apply IH. lia. }
  apply Hle. unfold next_id. lia.
Qed.

Lemma next_id_fresh (ids : list Z) : next_id ids ∉ ids.
Proof.
  assert (Hle : ∀ x, x ∈ ids → x ≤ foldr Z.max 0 ids).
  { induction ids as [|y ids IH]; intros x Hx; csimpl.
    - by apply elem_of_nil in Hx.
    - apply elem_of_cons in Hx as [->|Hx]; [lia|].
      specialize (IH x Hx). lia. }
  intros Hin. apply Hle in Hin. unfold next_id in Hin. lia.
Qed.

Lemma find_id_None {A : Type} (key : A → Z) (l : list A) (pk : Z) :
  pk ∉ key <$> l → List.find (λ x, key x =? pk) l = None.
Proof.
  induction l as [|x l IH]; intros Hpk; simpl; [done|].
  rewrite fmap_cons in Hpk. apply not_elem_of_cons in Hpk as [Hne Hpk].
  destruct (Z.eqb_spec (key x) pk) as [Heq|_]; [congruence|]. by apply IH.
Qed.

Lemma find_id_Some {A : Type} (key : A → Z) (l : list A) (pk : Z) (x : A) :
  List.find (λ x, key x =? pk) l = Some x → x ∈ l ∧ key x = pk.
Proof.
  induction l as [|y l IH]; simpl; [done|].
  destruct (Z.eqb_spec (key y) pk) as [Heq|_].
  - intros [= ->]. split; [apply list_elem_of_here|done].
  - intros Hx. destruct (IH Hx). split; [by apply list_elem_of_further|done].
Qed.

(** a read-only loop body that succeeds on every element is a [map] *)
Lemma mapM_read {A B : Type} (f : A → M B) (g : A → B) (l : list A) db :
  Forall (λ x, f x db = (Ok (g x), db)) l →
  mapM f l db = (Ok (g <$> l), db).
Proof.
  induction 1 as [|x l Hx _ IH]; simpl; [done|].
  run. rewrite Hx. run. by rewrite IH.
Qed.

(** ** Creating records with a field missing *)

Section CreateFacts.
Context `{Collaborators}.

Lemma add_parking_space_without_location (m : gmap string json) db :
  m !! "location" = None →
  add_parking_space (JObj m) db = (Raise (KeyError "location"), db).
Proof. intros Hloc. unfold add_parking_space. run. by rewrite Hloc. Qed.

Lemma add_car_without_residence (m : gmap string json) db :
  m !! "residence_location" = None →
  add_car (JObj m) db = (Raise (KeyError "residence_location"), db).
Proof. intros Hm. unfold add_car. run. by rewrite Hm. Qed.

Lemma add_car_without_current (m : gmap string json) db :
  is_Some (m !! "residence_location") →
  m !! "current_location" = None →
  add_car (JObj m) db = (Raise (KeyError "current_location"), db).
Proof.
  intros [r Hr] Hm. unfold add_car. by repeat (run; rewrite ?Hr, ?Hm).
Qed.

Lemma add_car_without_emission (m : gmap string json) db :
  is_Some (m !! "residence_location") →
  is_Some (m !! "current_location") →
  m !! "emission" = None →
  add_car (JObj m) db = (Raise (KeyError "emission"), db).
Proof.
  intros [r Hr] [c Hc] Hm. unfold add_car.
  by repeat (run; rewrite ?Hr, ?Hc, ?Hm).
Qed.

Lemma add_car_without_co2 (m e : gmap string json) db :
  is_Some (m !! "residence_location") →
  is_Some (m !! "current_location") →
  m !! "emission" = Some (JObj e) →
  e !! "co2" = None →
  add_car (JObj m) db = (Raise (KeyError "co2"), db).
Proof.
  intros [r Hr] [c Hc] Hm He. unfold add_car.
  by repeat (run; rewrite ?Hr, ?Hc, ?Hm, ?He).
Qed.

Lemma add_car_without_nox (m e : gmap string json) db :
  is_Some (m !! "residence_location") →
  is_Some (m !! "current_location") →
  m !! "emission" = Some (JObj e) →
  is_Some (e !! "co2") →
  e !! "nox" = None →
  add_car (JObj m) db = (Raise (KeyError "nox"), db).
Proof.
  intros [r Hr] [c Hc] Hm [x Hx] He. unfold add_car.
  by repeat (run; rewrite ?Hr, ?Hc, ?Hm, ?Hx, ?He).
Qed.

(** C3: a create-parking-space body without [location], and a create-car
    body without [residence_location], [current_location], [emission] or
    one of its [co2] and [nox] fields, makes the handler raise [KeyError]:
    no response is returned, in particular none with code 400; no record
    is inserted. *)
Theorem create_without_required_field (m : gmap string json) db :
  (m !! "location" = None →
   add_parking_space (JObj m) db = (Raise (KeyError "location"), db))
  ∧ (m !! "residence_location" = None
     ∨ m !! "current_location" = None
     ∨ m !! "emission" = None
     ∨ (∃ e, m !! "emission" = Some (JObj e)
             ∧ (e !! "co2" = None ∨ e !! "nox" = None)) →
     ∃ key, add_car (JObj m) db = (Raise (KeyError key), db)).
Proof.
  split; [apply add_parking_space_without_location|].
  intros Hmissing.
  destruct (m !! "residence_location") as [r|] eqn:Hr;
    [|eexists; by apply add_car_without_residence].
  destruct (m !! "current_location") as [c|] eqn:Hc;
    [|eexists; apply add_car_without_current; [by rewrite Hr|done]].
  destruct (m !! "emission") as [em|] eqn:Hem;
    [|eexists; apply add_car_without_emission; [by rewrite Hr|by rewrite Hc|done]].
  destruct Hmissing as [?|[?|[?|(e & [= ->] & He)]]]; try done.
  destruct (e !! "co2") as [x|] eqn:Hx.
  - destruct He as [?|He]; [done|]. eexists.
    apply (add_car_without_nox m e); rewrite ?Hr, ?Hc, ?Hx; done.
  - eexists.
    apply (add_car_without_co2 m e); rewrite ?Hr, ?Hc; done.
Qed.

End CreateFacts.

Lemma create_without_required_field_witness :
  @add_parking_space flat_world (JObj ∅) demo_store
  = (Raise (KeyError "location"), demo_store)
  ∧ ∃ key,
      @add_car flat_world (JObj {["residence_location" := JNum 1.0]}) demo_store
      = (Raise (KeyError key), demo_store).
Proof.
  split.
  - apply (proj1 (@create_without_required_field flat_world ∅ demo_store)).
    reflexivity.
  - apply (proj2 (@create_without_required_field flat_world
                    {["residence_location" := JNum 1.0]} demo_store)).
    right. left. reflexivity.
Defined.

(** ** Updating the status of a space *)

Lemma query_get_Some db space_id parking_space :
  ParkingSpace_query_get db space_id = Ok (Some parking_space) →
  sqlite_integer space_id = true
  ∧ ParkingSpace_row db space_id = Some parking_space
  ∧ ParkingSpace.id parking_space = space_id.
Proof.
  unfold ParkingSpace_query_get.
  destruct (sqlite_integer space_id); [|done].
  intros [= Hrow]. split; [done|]. split; [done|].
  by apply find_id_Some in Hrow as [_ Hid].
Qed.

Lemma query_get_row db space_id :
  sqlite_integer space_id = true →
  ParkingSpace_query_get db space_id = Ok (ParkingSpace_row db space_id).
Proof. intros Hrange. unfold ParkingSpace_query_get. by rewrite Hrange. Qed.

Lemma row_updated db space_id parking_space (b : bool) :
  ParkingSpace_row db space_id = Some parking_space →
  List.find (λ s, ParkingSpace.id s =? space_id)
    ((λ s, if ParkingSpace.id s =? ParkingSpace.id parking_space
           then ParkingSpace.mk (ParkingSpace.id s) (ParkingSpace.location s) b
           else s) <$> parking_spaces db)
  = Some (ParkingSpace.mk (ParkingSpace.id parking_space)
            (ParkingSpace.location parking_space) b).
Proof.
  unfold ParkingSpace_row. intros Hfound.
  pose proof (find_id_Some _ _ _ _ Hfound) as [_ Hid]. rewrite Hid.
  clear Hid. revert Hfound.
  induction (parking_spaces db) as [|s l IH]; csimpl; [done|].
  destruct (Z.eqb_spec (ParkingSpace.id s) space_id) as [Heq|Hne]; simpl.
  - intros [= ->]. by rewrite Heq, Z.eqb_refl.
  - destruct (Z.eqb_spec (ParkingSpace.id s) space_id); [done|]. apply IH.
Qed.

Section UpdateFacts.
Context `{Collaborators}.

Lemma update_without_status space_id parking_space (m : gmap string json) db :
  ParkingSpace_query_get db space_id = Ok (Some parking_space) →
  m !! "status" = None ∨ m !! "status" = Some JNull →
  update_parking_space_status space_id (JObj m) db
  = (Ok (ErrorBody "No status provided", 400), db).
Proof.
  intros Hfound Hstatus. unfold update_parking_space_status.
  run. rewrite Hfound. run.
  by destruct Hstatus as [-> | ->].
Qed.

(** C5: a status update addressed to an existing space whose body gives no
    status value is answered 400 with error "No status provided"; the
    database, and so the stored status of that space, is unchanged. *)
Theorem update_status_missing space_id parking_space (m : gmap string json) db :
  ParkingSpace_query_get db space_id = Ok (Some parking_space) →
  m !! "status" = None →
  ∃ db',
    update_parking_space_status space_id (JObj m) db
    = (Ok (ErrorBody "No status provided", 400), db')
    ∧ db' = db
    ∧ ParkingSpace_query_get db' space_id = Ok (Some parking_space).
Proof.
  intros Hfound Hstatus. exists db. split; [|done].
  apply (update_without_status _ parking_space); auto.
Qed.

(** C6: a status update whose space id the lookup finds no row for is
    answered 404 with error "Parking space not found" and changes nothing;
    the lookup comes first, so the body is not inspected: the answer is the
    same with or without a status field, whatever JSON value the body is.
    The ids concerned are those the engine can bind, which are all the ids
    a stored row can have. *)
Theorem update_status_unknown_space space_id (data : json) db :
  ParkingSpace_query_get db space_id = Ok None →
  update_parking_space_status space_id data db
  = (Ok (ErrorBody "Parking space not found", 404), db).
Proof.
  intros Hmissing. unfold update_parking_space_status.
  run. by rewrite Hmissing.
Qed.

Lemma update_with_boolean space_id parking_space (m : gmap string json)
    (b : bool) db :
  ParkingSpace_query_get db space_id = Ok (Some parking_space) →
  ParkingSpace_pricing db parking_space = None →
  m !! "status" = Some (JBool b) →
  ∃ db',
    update_parking_space_status space_id (JObj m) db
    = (Ok (SpaceBody
             (SpaceJson.mk space_id (ParkingSpace.location parking_space)
                (if b then "available" else "not available") None),
           200), db')
    ∧ ParkingSpace_query_get db' space_id
      = Ok (Some (ParkingSpace.mk space_id
                    (ParkingSpace.location parking_space) b)).
Proof.
  intros Hfound Hpricing Hstatus.
  pose proof (query_get_Some _ _ _ Hfound) as (Hrange & Hrow & Hid).
  subst space_id.
  eexists. split.
  - unfold update_parking_space_status. run. rewrite Hfound. run.
    rewrite Hstatus. run. unfold update_status, serialize. run.
    unfold ParkingSpace_pricing in *. simpl. rewrite Hpricing. run.
    reflexivity.
  - rewrite query_get_row by done. f_equal.
    apply (row_updated db _ parking_space b Hrow).
Qed.

(** C9: the missing-status check is a comparison with [None], not a test
    of key presence: a body whose status is JSON null is answered exactly
    as the same body without the key, 400 "No status provided" with the
    database unchanged; a body whose status is the boolean false is
    accepted, answered 200, and the space is stored with status false. *)
Theorem update_status_none_check space_id parking_space
    (m : gmap string json) db :
  ParkingSpace_query_get db space_id = Ok (Some parking_space) →
  (m !! "status" = Some JNull →
     update_parking_space_status space_id (JObj m) db
     = (Ok (ErrorBody "No status provided", 400), db)
     ∧ update_parking_space_status space_id (JObj m) db
       = update_parking_space_status space_id (JObj (delete "status" m)) db)
  ∧ (m !! "status" = Some (JBool false) →
     ParkingSpace_pricing db parking_space = None →
     ∃ db',
       update_parking_space_status space_id (JObj m) db
       = (Ok (SpaceBody
                (SpaceJson.mk space_id (ParkingSpace.location parking_space)
                   "not available" None),
              200), db')
       ∧ ParkingSpace_query_get db' space_id
         = Ok (Some (ParkingSpace.mk space_id
                       (ParkingSpace.location parking_space) false))).
Proof.
  intros Hfound. split.
  - intros Hnull.
    rewrite (update_without_status _ parking_space m) by auto.
    rewrite (update_without_status _ parking_space (delete "status" m));
      [done|done|].
    left. apply lookup_delete_eq.
  - intros Hfalse Hpricing.
    apply (update_with_boolean _ _ m false db Hfound Hpricing Hfalse).
Qed.

End UpdateFacts.

Lemma update_status_missing_witness :
  ∃ db',
    @update_parking_space_status flat_world 1 (JObj ∅) demo_store
    = (Ok (ErrorBody "No status provided", 400), db')
    ∧ db' = demo_store
    ∧ ParkingSpace_query_get db' 1 = Ok (Some free_space).
Proof.
  apply (@update_status_missing flat_world 1 free_space ∅ demo_store);
    reflexivity.
Defined.

Lemma update_status_unknown_space_witness :
  @update_parking_space_status flat_world 9 (JArr []) demo_store
  = (Ok (ErrorBody "Parking space not found", 404), demo_store).
Proof.
  apply (@update_status_unknown_space flat_world 9 (JArr []) demo_store).
  reflexivity.
Defined.

Lemma update_status_none_check_witness :
  (@update_parking_space_status flat_world 1
     (JObj {["status" := JNull]}) demo_store
   = (Ok (ErrorBody "No status provided", 400), demo_store)
   ∧ @update_parking_space_status flat_world 1
       (JObj {["status" := JNull]}) demo_store
     = @update_parking_space_status flat_world 1
         (JObj (delete "status" {["status" := JNull]})) demo_store)
  ∧ ∃ db',
      @update_parking_space_status flat_world 1
        (JObj {["status" := JBool false]}) demo_store
      = (Ok (SpaceBody
               (SpaceJson.mk 1 (point 41.0 29.0) "not available" None), 200),
         db')
      ∧ ParkingSpace_query_get db' 1
        = Ok (Some (ParkingSpace.mk 1 (point 41.0 29.0) false)).
Proof.
  split.
  - apply (proj1 (@update_status_none_check flat_world 1 free_space
                    {["status" := JNull]} demo_store eq_refl)).
    reflexivity.
  - apply (proj2 (@update_status_none_check flat_world 1 free_space
                    {["status" := JBool false]} demo_store eq_refl));
      reflexivity.
Defined.

(** ** Listing the available spaces *)

Lemma NoDup_fmap_eq {A : Type} (key : A → Z) (l : list A) (x y : A) :
  NoDup (key <$> l) → x ∈ l → y ∈ l → key x = key y → x = y.
Proof.
  induction l as [|z l IH]; csimpl; intros Hnd Hx Hy Hkey.
  - by apply elem_of_nil in Hx.
  - apply NoDup_cons in Hnd as [Hz Hnd].
    apply elem_of_cons in Hx as [->|Hx]; apply elem_of_cons in Hy as [->|Hy];
      [done| | |by apply IH].
    + destruct Hz. rewrite Hkey. by apply list_elem_of_fmap_2.
    + destruct Hz. rewrite <- Hkey. by apply list_elem_of_fmap_2.
Qed.

Section ListingFacts.
Context `{Collaborators}.

(** C10: when the [car_id] query parameter is absent, or is present and
    denotes no stored car, the listing is answered 404 with error
    "Car not found": the absent parameter gets the same answer, not a
    validation error of its own. *)
Theorem get_parking_spaces_car_not_found (car_id : option string) db :
  car_id = None
  ∨ (∃ s, car_id = Some s
          ∧ ∀ pk, pk_of_string s = Some pk → Car_query_get db pk = None) →
  get_parking_spaces car_id db = (Ok (ErrorBody "Car not found", 404), db).
Proof.
  intros [->|(s & -> & Hnone)]; unfold get_parking_spaces; run; [done|].
  destruct (pk_of_string s) as [pk|] eqn:Hpk; simpl; [|done].
  by rewrite (Hnone pk).
Qed.

(** the listing, when [calculate_price] returns for every available space *)
Lemma get_parking_spaces_found (s : string) pk car db :
  pk_of_string s = Some pk →
  Car_query_get db pk = Some car →
  Forall (λ space, ∃ price, calculate_price db space car = Ok price)
         (filter (λ space, ParkingSpace.status space = true)
                 (parking_spaces db)) →
  get_parking_spaces (Some s) db
  = (Ok (SpaceListBody
           ((λ space,
               SpaceJson.mk (ParkingSpace.id space)
                 (ParkingSpace.location space) "available"
                 (quote db car space))
            <$> filter (λ space, ParkingSpace.status space = true)
                       (parking_spaces db)),
         200), db).
Proof.
  intros Hpk Hcar Hprices. unfold get_parking_spaces. run.
  rewrite Hpk. simpl. rewrite Hcar. run.
  erewrite mapM_read; [run; reflexivity|].
  eapply Forall_impl; [exact Hprices|]. intros space [price Hprice].
  run. unfold quote. by rewrite Hprice.
Qed.

Lemma calculate_price_known db space car emission :
  ParkingSpace.status space = true →
  distances_known car space →
  Car_emission db car = Some emission →
  ∃ price, calculate_price db space car = Ok (Some price).
Proof.
  intros Hstatus (d1 & d2 & Hd1 & Hd2) Hemission. eexists.
  by apply (calculate_price_formula db space car emission d1 d2).
Qed.

(** C4: for a well-formed database, an existing car and available spaces
    whose distances to the car [geodesic] returns, the listing returns, in
    order, one entry per space whose status is true, carrying the id and
    location of the space, the status "available" and the price
    [calculate_price] gives for that space and that car; no entry bears
    the id of a space whose status is false. *)
Theorem get_parking_spaces_lists_available (s : string) pk car db :
  wf_store db →
  pk_of_string s = Some pk →
  Car_query_get db pk = Some car →
  Forall (distances_known car)
         (filter (λ space, ParkingSpace.status space = true)
                 (parking_spaces db)) →
  ∃ entries,
    get_parking_spaces (Some s) db = (Ok (SpaceListBody entries, 200), db)
    ∧ Forall2 (λ space entry,
                 ParkingSpace.status space = true
                 ∧ SpaceJson.id entry = ParkingSpace.id space
                 ∧ SpaceJson.location entry = ParkingSpace.location space
                 ∧ SpaceJson.status entry = "available"
                 ∧ calculate_price db space car = Ok (SpaceJson.price entry))
              (filter (λ space, ParkingSpace.status space = true)
                      (parking_spaces db))
              entries
    ∧ (∀ space entry,
         space ∈ parking_spaces db →
         ParkingSpace.status space = false →
         entry ∈ entries →
         SpaceJson.id entry ≠ ParkingSpace.id space).
Proof.
  intros (_ & Hspaces & _ & Hemissions & _) Hpk Hcar Hknown.
  pose proof (find_id_Some _ _ _ _ Hcar) as [Hin _].
  rewrite Forall_forall in Hemissions.
  destruct (Hemissions car Hin) as [emission Hemission].
  assert (Hprices :
            Forall (λ space, ∃ price, calculate_price db space car = Ok price)
              (filter (λ space, ParkingSpace.status space = true)
                      (parking_spaces db))).
  { apply Forall_forall. intros space Hspace.
    pose proof Hspace as [Hstatus _]%list_elem_of_filter.
    rewrite Forall_forall in Hknown.
    destruct (calculate_price_known db space car emission Hstatus
                (Hknown space Hspace) Hemission) as [price Hprice].
    eauto. }
  eexists. split; [by apply (get_parking_spaces_found s pk car)|].
  split.
  - apply Forall2_fmap_r, Forall_Forall2_diag.
    rewrite Forall_forall in Hprices. apply Forall_forall.
    intros space Hspace. simpl.
    pose proof Hspace as [Hstatus _]%list_elem_of_filter.
    destruct (Hprices space Hspace) as [price Hprice].
    unfold quote. by rewrite Hprice.
  - intros space entry Hspace Hfalse
      (space' & -> & [Htrue Hspace']%list_elem_of_filter)%list_elem_of_fmap.
    simpl. intros Hid.
    rewrite (NoDup_fmap_eq _ _ _ _ Hspaces Hspace' Hspace Hid) in Htrue.
    congruence.
Qed.

End ListingFacts.

Lemma wf_demo_store : wf_store demo_store.
Proof. by apply (bool_decide_unpack _). Qed.

(** the example database is the one three requests build *)
Example demo_store_reachable : @reachable flat_world demo_store.
Proof.
  change demo_store with
    (@handle flat_world
       (AddParkingSpace
          (JObj (<["location" := point 41.02 29.0]>
                   {["status" := JBool false]})))
       (@handle flat_world
          (AddParkingSpace (JObj {["location" := point 41.0 29.0]}))
          (@handle flat_world
             (AddCar
                (JObj (<["residence_location" := point 41.05 29.0]>
                         (<["current_location" := point 41.01 29.0]>
                            {["emission" :=
                                JObj (<["co2" := JNum 3.0]>
                                        {["nox" := JNum 2.0]})]}))))
             empty_store).2).2).2.
  repeat constructor.
Qed.

(** and so is the one whose car has emissions -200.0 and 0.0 *)
Example credited_store_reachable : @reachable flat_world credited_store.
Proof.
  change credited_store with
    (@handle flat_world
       (AddParkingSpace
          (JObj (<["location" := point 41.02 29.0]>
                   {["status" := JBool false]})))
       (@handle flat_world
          (AddParkingSpace (JObj {["location" := point 41.0 29.0]}))
          (@handle flat_world
             (AddCar
                (JObj (<["residence_location" := point 41.05 29.0]>
                         (<["current_location" := point 41.01 29.0]>
                            {["emission" :=
                                JObj (<["co2" := JNum (-200)]>
                                        {["nox" := JNum 0]})]}))))
             empty_store).2).2).2.
  repeat constructor.
Qed.

(** in the example database both distances of the car are known for the
    free space *)
Lemma demo_distances_known :
  Forall (@distances_known flat_world demo_car) [free_space].
Proof.
  apply Forall_cons. split; [|apply Forall_nil_2].
  eexists _, _. split; reflexivity.
Qed.

Lemma get_parking_spaces_car_not_found_witness :
  @get_parking_spaces flat_world None demo_store
  = (Ok (ErrorBody "Car not found", 404), demo_store)
  ∧ @get_parking_spaces flat_world (Some "7") demo_store
    = (Ok (ErrorBody "Car not found", 404), demo_store).
Proof.
  split.
  - apply (@get_parking_spaces_car_not_found flat_world None demo_store).
    left. reflexivity.
  - apply (@get_parking_spaces_car_not_found flat_world (Some "7") demo_store).
    right. exists "7". split; [reflexivity|].
    intros pk [= <-]. reflexivity.
Defined.

Lemma get_parking_spaces_lists_available_witness :
  ∃ entries,
    @get_parking_spaces flat_world (Some "1") demo_store
    = (Ok (SpaceListBody entries, 200), demo_store)
    ∧ Forall2 (λ space entry,
                 ParkingSpace.status space = true
                 ∧ SpaceJson.id entry = ParkingSpace.id space
                 ∧ SpaceJson.location entry = ParkingSpace.location space
                 ∧ SpaceJson.status entry = "available"
                 ∧ @calculate_price flat_world demo_store space demo_car
                   = Ok (SpaceJson.price entry))
              [free_space] entries
    ∧ (∀ space entry,
         space ∈ parking_spaces demo_store →
         ParkingSpace.status space = false →
         entry ∈ entries →
         SpaceJson.id entry ≠ ParkingSpace.id space).
Proof.
  apply (@get_parking_spaces_lists_available flat_world "1" 1 demo_car
           demo_store wf_demo_store eq_refl eq_refl demo_distances_known).
Defined.

(** ** The schema constraints are invariant *)

Lemma find_app_Some {A : Type} (f : A → bool) (l k : list A) (x : A) :
  List.find f l = Some x → List.find f (l ++ k) = Some x.
Proof.
  induction l as [|y l IH]; simpl; [done|]. destruct (f y); [done|apply IH].
Qed.

Lemma find_app_None {A : Type} (f : A → bool) (l k : list A) :
  List.find f l = None → List.find f (l ++ k) = List.find f k.
Proof.
  induction l as [|y l IH]; simpl; [done|]. destruct (f y); [done|apply IH].
Qed.

Lemma wf_empty_store : wf_store empty_store.
Proof. by apply (bool_decide_unpack _). Qed.

Section Preservation.
Context (I : Store → Prop).

Lemma preserves_bind {A B : Type} (m : M A) (k : A → M B) :
  preserves I m → (∀ a, preserves I (k a)) → preserves I (m ≫= k).
Proof.
  intros Hm Hk db Hdb. rewrite M_bind_run.
  specialize (Hm db Hdb). destruct (m db) as [[a|e] db']; simpl in *; [|done].
  by apply Hk.
Qed.

Lemma preserves_ret {A : Type} (a : A) : preserves I (mret a).
Proof. by intros db Hdb. Qed.

Lemma preserves_read {A : Type} (f : Store → result A) :
  preserves I (read f).
Proof. by intros db Hdb. Qed.

Lemma preserves_query {A : Type} (f : Store → A) : preserves I (query f).
Proof. by intros db Hdb. Qed.

Lemma preserves_lift {A : Type} (r : result A) : preserves I (lift r).
Proof. by intros db Hdb. Qed.

Lemma preserves_mapM {A B : Type} (f : A → M B) (l : list A) :
  (∀ x, preserves I (f x)) → preserves I (mapM f l).
Proof.
  intros Hf. induction l as [|x l IH]; simpl; [apply preserves_ret|].
  apply preserves_bind; [apply Hf|]. intros y.
  apply preserves_bind; [apply IH|]. intros k. apply preserves_ret.
Qed.

Lemma preserves_serialize self : preserves I (serialize self).
Proof.
  apply preserves_bind; [apply preserves_read|].
  intros price. apply preserves_ret.
Qed.

End Preservation.

Create HintDb preserve.

#[local] Hint Resolve preserves_ret preserves_read preserves_query
  preserves_lift preserves_serialize : preserve.

Ltac preserve :=
  repeat first
    [ apply preserves_bind; [|intros ?]
    | apply preserves_mapM; intros ?
    | solve [auto with preserve]
    | match goal with
      | |- preserves _ (match ?x with _ => _ end) => destruct x
      | |- preserves _ (if ?x then _ else _) => destruct x
      end ].

Section Invariant.
Context `{Collaborators}.

Lemma wf_insert_parking_space db (new_space : ParkingSpace.t) :
  ParkingSpace.id new_space = next_id (ParkingSpace.id <$> parking_spaces db) →
  wf_store db →
  wf_store (mkStore (cars db) (emissions db)
              (parking_spaces db ++ [new_space]) (pricings db)
              (car_pricings db)).
Proof.
  intros Hid (Hcars & Hspaces & Hfk & Hem & Hpr).
  repeat split; simpl; try done.
  - rewrite fmap_snoc. apply NoDup_app. repeat split; [done| |apply NoDup_singleton].
    intros x Hx ->%list_elem_of_singleton. rewrite Hid in Hx.
    by apply next_id_fresh in Hx.
  - eapply Forall_impl; [exact Hpr|]. intros p Hp. simpl in *.
    rewrite fmap_snoc. apply elem_of_app. by left.
Qed.

Lemma wf_update_status db (f : ParkingSpace.t → ParkingSpace.t) :
  (∀ s, ParkingSpace.id (f s) = ParkingSpace.id s) →
  wf_store db →
  wf_store (mkStore (cars db) (emissions db) (f <$> parking_spaces db)
              (pricings db) (car_pricings db)).
Proof.
  intros Hid (Hcars & Hspaces & Hfk & Hem & Hpr).
  assert (Hids : ParkingSpace.id <$> (f <$> parking_spaces db)
                 = ParkingSpace.id <$> parking_spaces db).
  { rewrite <- list_fmap_compose. apply list_fmap_ext. intros _ s _. apply Hid. }
  repeat split; simpl; try done; by rewrite Hids.
Qed.

Lemma emission_of_fresh_car db :
  wf_store db →
  List.find (λ e, Emission.car_id e =? next_id (Car.id <$> cars db))
            (emissions db) = None.
Proof.
  intros (_ & _ & Hfk & _). apply find_id_None.
  intros (e & Heq & He)%list_elem_of_fmap.
  rewrite Forall_forall in Hfk. specialize (Hfk e He). simpl in Hfk.
  rewrite <- Heq in Hfk. by apply next_id_fresh in Hfk.
Qed.

Lemma wf_insert_car db (new_car : Car.t) (new_emission : Emission.t) :
  Car.id new_car = next_id (Car.id <$> cars db) →
  Emission.car_id new_emission = Car.id new_car →
  wf_store db →
  wf_store (mkStore (cars db ++ [new_car]) (emissions db ++ [new_emission])
              (parking_spaces db) (pricings db) (car_pricings db)).
Proof.
  intros Hid Hlink Hdb.
  pose proof (emission_of_fresh_car db Hdb) as Hfresh.
  destruct Hdb as (Hcars & Hspaces & Hfk & Hem & Hpr).
  repeat split; simpl; try done.
  - rewrite fmap_snoc. apply NoDup_app. repeat split; [done| |apply NoDup_singleton].
    intros x Hx ->%list_elem_of_singleton. rewrite Hid in Hx.
    by apply next_id_fresh in Hx.
  - apply Forall_app. split.
    + eapply Forall_impl; [exact Hfk|]. intros e He. simpl in *.
      rewrite fmap_snoc. apply elem_of_app. by left.
    + apply Forall_singleton. rewrite fmap_snoc, Hlink.
      apply elem_of_app. right. by apply list_elem_of_singleton.
  - apply Forall_app. split.
    + eapply Forall_impl; [exact Hem|]. intros c [e He].
      exists e. unfold Car_emission in *. simpl. by apply find_app_Some.
    + apply Forall_singleton. exists new_emission.
      unfold Car_emission. simpl. rewrite Hid.
      rewrite find_app_None by done. simpl.
      by rewrite Hlink, Hid, Z.eqb_refl.
Qed.

(** whatever the three commits maintain, every route maintains *)
Lemma handle_preserves (I : Store → Prop) :
  (∀ location status, preserves I (insert_parking_space location status)) →
  (∀ parking_space status, preserves I (update_status parking_space status)) →
  (∀ r c co2 nox, preserves I (insert_car_with_emission r c co2 nox)) →
  ∀ r, preserves I (handle r).
Proof.
  intros Hspace Hstatus Hcar r.
  destruct r; simpl;
    unfold get_parking_spaces, add_parking_space,
      update_parking_space_status, get_cars, add_car;
    preserve.
Qed.

Lemma handle_wf r : preserves wf_store (handle r).
Proof.
  apply handle_preserves.
  - intros location status db Hdb. unfold insert_parking_space.
    destruct (_ ≫= _) as [[l s]|e]; simpl; [|done].
    by apply wf_insert_parking_space.
  - intros parking_space status db Hdb. unfold update_status.
    destruct (Boolean_column None status) as [b|e]; simpl; [|done].
    apply wf_update_status; [|done]. intros s.
    by destruct (ParkingSpace.id s =? ParkingSpace.id parking_space).
  - intros r' c co2 nox db Hdb. unfold insert_car_with_emission.
    destruct (_ ≫= _) as [[[[r'' c'] x] y]|e]; simpl; [|done].
    by apply wf_insert_car.
Qed.

(** no route writes to the pricing table *)
Lemma handle_pricings r : preserves (λ db, pricings db = []) (handle r).
Proof.
  apply handle_preserves.
  - intros location status db Hdb. unfold insert_parking_space.
    by destruct (_ ≫= _) as [[l s]|e].
  - intros parking_space status db Hdb. unfold update_status.
    by destruct (Boolean_column None status) as [b|e].
  - intros r' c co2 nox db Hdb. unfold insert_car_with_emission.
    by destruct (_ ≫= _) as [[[[r'' c'] x] y]|e].
Qed.

(** every database the service reaches satisfies the schema constraints
    and has an empty pricing table *)
Lemma reachable_wf db : reachable db → wf_store db.
Proof.
  induction 1 as [|db r _ IH]; [apply wf_empty_store|by apply handle_wf].
Qed.

Lemma reachable_pricings db : reachable db → pricings db = [].
Proof.
  induction 1 as [|db r _ IH]; [done|by apply handle_pricings].
Qed.

Lemma reachable_no_pricing db parking_space :
  reachable db → ParkingSpace_pricing db parking_space = None.
Proof.
  intros Hdb%reachable_pricings. unfold ParkingSpace_pricing.
  by rewrite Hdb.
Qed.

End Invariant.

(** ** Creating a parking space *)

Section AddSpaceFacts.
Context `{Collaborators}.

Lemma PickleType_column_value (v : json) :
  v ≠ JNull → PickleType_column v = Ok v.
Proof. intros Hv. by destruct v. Qed.

Lemma pricing_of_fresh_space db (new_space : ParkingSpace.t) spaces' :
  wf_store db →
  ParkingSpace.id new_space = next_id (ParkingSpace.id <$> parking_spaces db) →
  ParkingSpace_pricing
    (mkStore (cars db) (emissions db) spaces' (pricings db) (car_pricings db))
    new_space = None.
Proof.
  intros (_ & _ & _ & _ & Hpr) Hid. unfold ParkingSpace_pricing. simpl.
  apply find_id_None. intros (p & Heq & Hp)%list_elem_of_fmap.
  rewrite Forall_forall in Hpr. specialize (Hpr p Hp). simpl in Hpr.
  rewrite <- Heq, Hid in Hpr. by apply next_id_fresh in Hpr.
Qed.

(** C8: a create-parking-space body that carries a location and no status
    field creates a record whose status is true; the response, 201,
    serializes it with status "available" and price null, the new space
    having no pricing row. *)
Theorem add_parking_space_default_status (m : gmap string json)
    (location : json) db :
  wf_store db →
  m !! "location" = Some location →
  location ≠ JNull →
  m !! "status" = None →
  ∃ new_space db',
    add_parking_space (JObj m) db
    = (Ok (SpaceBody
             (SpaceJson.mk (ParkingSpace.id new_space) location
                "available" None),
           201), db')
    ∧ new_space
      = ParkingSpace.mk (next_id (ParkingSpace.id <$> parking_spaces db))
          location true
    ∧ parking_spaces db' = parking_spaces db ++ [new_space]
    ∧ ParkingSpace_row db' (ParkingSpace.id new_space) = Some new_space
    ∧ ParkingSpace_pricing db' new_space = None.
Proof.
  intros Hdb Hlocation Hvalue Hstatus.
  eexists. eexists. split; [|split; [reflexivity|]].
  - unfold add_parking_space. run. rewrite Hlocation. run.
    rewrite Hstatus. run. unfold insert_parking_space. run.
    rewrite (PickleType_column_value _ Hvalue). run.
    unfold serialize. run.
    rewrite pricing_of_fresh_space by done. run. reflexivity.
  - simpl. split; [done|]. split.
    + unfold ParkingSpace_row. simpl.
      rewrite find_app_None by apply find_id_fresh.
      simpl. by rewrite Z.eqb_refl.
    + by apply pricing_of_fresh_space.
Qed.

End AddSpaceFacts.

Lemma add_parking_space_default_status_witness :
  ∃ new_space db',
    @add_parking_space flat_world (JObj {["location" := far_point]}) demo_store
    = (Ok (SpaceBody
             (SpaceJson.mk (ParkingSpace.id new_space) far_point
                "available" None),
           201), db')
    ∧ new_space = ParkingSpace.mk 3 far_point true
    ∧ parking_spaces db' = [free_space; taken_space; new_space]
    ∧ ParkingSpace_row db' (ParkingSpace.id new_space) = Some new_space
    ∧ ParkingSpace_pricing db' new_space = None.
Proof.
  apply (@add_parking_space_default_status flat_world
           {["location" := far_point]} far_point demo_store wf_demo_store);
    [reflexivity|discriminate|reflexivity].
Defined.

(** ** Creating a car and reading it back *)

Section AddCarFacts.
Context `{Collaborators}.

Lemma get_cars_ok db :
  Forall (λ c, is_Some (Car_emission db c)) (cars db) →
  get_cars db
  = (Ok (CarListBody
           ((λ car, car_summary car
                      (default (Emission.mk 0 0 0 0) (Car_emission db car)))
            <$> cars db),
         200), db).
Proof.
  intros Hem. unfold get_cars. run.
  erewrite mapM_read; [run; reflexivity|].
  eapply Forall_impl; [exact Hem|]. intros car [e He]. run.
  by rewrite He.
Qed.

Lemma filter_none {A : Type} (P : A → Prop) `{∀ x, Decision (P x)}
    (l : list A) :
  Forall (λ x, ¬ P x) l → filter P l = [].
Proof.
  induction 1 as [|x l Hx _ IH]; [done|].
  by rewrite filter_cons_False.
Qed.

Lemma Float_column_number (f : float) :
  (f =? f)%float = true → Float_column (JNum f) = Ok (Float_stored f).
Proof. intros Hf. unfold Float_column. by rewrite Hf. Qed.

Lemma float_eqb_sym (x y : float) : (x =? y)%float = (y =? x)%float.
Proof.
  rewrite !FloatAxioms.eqb_spec. unfold SFeqb.
  rewrite (SFcompare_antisym (Prim2SF y) (Prim2SF x)).
  by destruct (SFcompare (Prim2SF y) (Prim2SF x)) as [[]|].
Qed.

(** what is read back is the number sent: the same binary64 value, but for
    the zero of negative sign, read back as the zero of positive sign *)
Lemma Float_stored_same (f : float) :
  (f =? f)%float = true →
  (Float_stored f =? f)%float = true
  ∧ ((f =? 0)%float = false → Float_stored f = f).
Proof.
  intros Hf. unfold Float_stored.
  destruct (f =? 0)%float eqn:Hzero; [|done].
  split; [|done]. by rewrite float_eqb_sym.
Qed.

(** C7: a create-car body carrying a residence location, a current
    location and the emission numbers co2 and nox (numbers proper, not NaN)
    inserts exactly one car and exactly one emission row, linked to that car
    and holding the submitted co2 and nox; the list of cars read afterwards
    is the list read before followed by that car with the same co2, nox,
    residence location and current location.  The same number means equal
    as binary64 numbers: a zero of negative sign is read back as zero, every
    other number bit for bit. *)
Theorem add_car_round_trip (m e : gmap string json)
    (residence current : json) (co2 nox : float) db :
  wf_store db →
  m !! "residence_location" = Some residence → residence ≠ JNull →
  m !! "current_location" = Some current → current ≠ JNull →
  m !! "emission" = Some (JObj e) →
  e !! "co2" = Some (JNum co2) → (co2 =? co2)%float = true →
  e !! "nox" = Some (JNum nox) → (nox =? nox)%float = true →
  ∃ new_car new_emission db' before co2' nox',
    add_car (JObj m) db = (Ok (IdBody (Car.id new_car), 201), db')
    ∧ new_car = Car.mk (next_id (Car.id <$> cars db)) residence current
    ∧ new_emission
      = Emission.mk (next_id (Emission.id <$> emissions db)) co2' nox'
          (Car.id new_car)
    ∧ ((co2' =? co2)%float = true ∧ ((co2 =? 0)%float = false → co2' = co2))
    ∧ ((nox' =? nox)%float = true ∧ ((nox =? 0)%float = false → nox' = nox))
    ∧ cars db' = cars db ++ [new_car]
    ∧ emissions db' = emissions db ++ [new_emission]
    ∧ filter (λ x, Emission.car_id x = Car.id new_car) (emissions db')
      = [new_emission]
    ∧ Car_emission db' new_car = Some new_emission
    ∧ get_cars db = (Ok (CarListBody before, 200), db)
    ∧ get_cars db'
      = (Ok (CarListBody
               (before ++ [CarJson.mk (Car.id new_car) co2' nox'
                             residence current]),
             200), db').
Proof.
  intros Hdb Hr Hrv Hc Hcv Hm Hco2 Hco2v Hnox Hnoxv.
  set (new_car := Car.mk (next_id (Car.id <$> cars db)) residence current).
  set (new_emission :=
         Emission.mk (next_id (Emission.id <$> emissions db))
           (Float_stored co2) (Float_stored nox) (Car.id new_car)).
  set (db' := mkStore (cars db ++ [new_car]) (emissions db ++ [new_emission])
                (parking_spaces db) (pricings db) (car_pricings db)).
  assert (Hdb' : wf_store db') by by apply wf_insert_car.
  pose proof (emission_of_fresh_car db Hdb) as Hfresh.
  assert (Hlinked : Car_emission db' new_car = Some new_emission).
  { unfold Car_emission. simpl. rewrite find_app_None by done.
    simpl. by rewrite Z.eqb_refl. }
  eexists new_car, new_emission, db', _, (Float_stored co2), (Float_stored nox).
  split; [|repeat split; try done].
  - unfold add_car. repeat (run; rewrite ?Hr, ?Hc, ?Hm, ?Hco2, ?Hnox).
    unfold insert_car_with_emission.
    rewrite !PickleType_column_value by done.
    rewrite !Float_column_number by done. run. reflexivity.
  - by apply Float_stored_same.
  - by apply Float_stored_same.
  - by apply Float_stored_same.
  - by apply Float_stored_same.
  - simpl. rewrite filter_app, filter_none.
    + simpl. by rewrite filter_cons_True, filter_nil.
    + apply Forall_forall. intros x Hx Hlink.
      destruct Hdb as (_ & _ & Hfk & _). rewrite Forall_forall in Hfk.
      specialize (Hfk x Hx). simpl in Hfk. rewrite Hlink in Hfk.
      by apply next_id_fresh in Hfk.
  - apply get_cars_ok, Hdb.
  - rewrite get_cars_ok by apply Hdb'.
    change (cars db') with (cars db ++ [new_car]).
    rewrite fmap_snoc, Hlinked.
    apply (f_equal (λ l, (Ok (CarListBody l, 200), db'))).
    apply (f_equal2 app); [|done].
    apply list_fmap_ext. intros i car Hcar%list_elem_of_lookup_2.
    destruct Hdb as (_ & _ & _ & Hem & _). rewrite Forall_forall in Hem.
    destruct (Hem car Hcar) as [em Hem1]. rewrite Hem1.
    unfold Car_emission in *. simpl.
    by rewrite (find_app_Some _ _ _ _ Hem1).
Qed.

End AddCarFacts.

Lemma add_car_round_trip_witness :
  ∃ new_car new_emission db' before co2' nox',
    @add_car flat_world (JObj demo_car_body) demo_store
    = (Ok (IdBody (Car.id new_car), 201), db')
    ∧ new_car = Car.mk 2 (point 41.0 29.0) (point 41.0 29.005)
    ∧ new_emission = Emission.mk 2 co2' nox' (Car.id new_car)
    ∧ ((co2' =? 1.0)%float = true ∧ ((1.0 =? 0)%float = false → co2' = 1.0%float))
    ∧ ((nox' =? 0.5)%float = true ∧ ((0.5 =? 0)%float = false → nox' = 0.5%float))
    ∧ cars db' = [demo_car; new_car]
    ∧ emissions db' = [demo_emission; new_emission]
    ∧ filter (λ x, Emission.car_id x = Car.id new_car) (emissions db')
      = [new_emission]
    ∧ Car_emission db' new_car = Some new_emission
    ∧ get_cars demo_store = (Ok (CarListBody before, 200), demo_store)
    ∧ get_cars db'
      = (Ok (CarListBody
               (before ++ [CarJson.mk (Car.id new_car) co2' nox'
                             (point 41.0 29.0) (point 41.0 29.005)]),
             200), db').
Proof.
  apply (@add_car_round_trip flat_world demo_car_body demo_emission_body
           (point 41.0 29.0) (point 41.0 29.005) 1.0%float 0.5%float
           demo_store wf_demo_store);
    first [reflexivity | discriminate].
Defined.

(** * Further properties of the routes *)

(** ** What a request can and cannot do *)

Section OutcomeFacts.
Context `{Collaborators}.

Lemma get_parking_spaces_store (car_id : option string) db :
  (get_parking_spaces car_id db).2 = db.
Proof.
  assert (Hp : preserves (λ db', db' = db) (get_parking_spaces car_id))
    by (unfold get_parking_spaces; preserve).
  by apply Hp.
Qed.

Lemma get_cars_store db : (get_cars db).2 = db.
Proof.
  assert (Hp : preserves (λ db', db' = db) get_cars)
    by (unfold get_cars; preserve).
  by apply Hp.
Qed.

(** X1: the two listing routes never write: whatever [GET /parking-spaces]
    and [GET /cars] answer, and also when they raise, the database after the
    request is the database before it. *)
Theorem listing_routes_read_only (car_id : option string) db :
  (get_parking_spaces car_id db).2 = db ∧ (get_cars db).2 = db.
Proof. split; [apply get_parking_spaces_store|apply get_cars_store]. Qed.

(** X2: the answers of each route: the space listing answers 200 with a list
    or 404 with an error, the creation of a space 201 with the serialized
    space, the status update 200 with the serialized space or 400 or 404 with
    an error, the car listing 200 with a list, the creation of a car 201 with
    an id; no route answers anything else. *)
Theorem handle_answers (r : request) db (b : body) (code : Z) db' :
  handle r db = (Ok (b, code), db') →
  match r with
  | GetParkingSpaces _ =>
      (code = 200 ∧ ∃ l, b = SpaceListBody l)
      ∨ (code = 404 ∧ b = ErrorBody "Car not found")
  | AddParkingSpace _ => code = 201 ∧ ∃ s, b = SpaceBody s
  | UpdateParkingSpaceStatus _ _ =>
      (code = 200 ∧ ∃ s, b = SpaceBody s)
      ∨ (code = 400 ∧ b = ErrorBody "No status provided")
      ∨ (code = 404 ∧ b = ErrorBody "Parking space not found")
  | GetCars => code = 200 ∧ ∃ l, b = CarListBody l
  | AddCar _ => code = 201 ∧ ∃ id, b = IdBody id
  end.
Proof.
  destruct r; simpl;
    unfold get_parking_spaces, add_parking_space, update_parking_space_status,
      get_cars, add_car;
    repeat (run; try case_match); intros; simplify_eq; eauto 6.
Qed.

(** X3: a request that fails writes nothing: when a route answers 400 or
    404 the database is unchanged, and, the pricing table being empty as no
    route fills it, so it is when a route raises. *)
Theorem failed_request_writes_nothing (r : request) db :
  (∀ b code db',
     handle r db = (Ok (b, code), db') → code = 400 ∨ code = 404 → db' = db)
  ∧ (pricings db = [] →
     ∀ e db', handle r db = (Raise e, db') → db' = db).
Proof.
  pose proof (get_cars_store db) as Hcars.
  destruct r as [car_id|data|space_id data| |data]; simpl.
  - pose proof (get_parking_spaces_store car_id db) as Hspaces.
    split; [intros b code db' Heq _|intros _ e db' Heq];
      by rewrite Heq in Hspaces.
  - split; [intros b code db'|intros Hpr e db'];
      unfold add_parking_space, insert_parking_space, serialize,
        ParkingSpace_pricing;
      repeat (run; rewrite ?Hpr; try case_match);
      intros; simplify_eq; try done; lia.
  - split; [intros b code db'|intros Hpr e db'];
      unfold update_parking_space_status, update_status, serialize,
        ParkingSpace_pricing;
      repeat (run; rewrite ?Hpr; try case_match);
      intros; simplify_eq; try done; lia.
  - split; [intros b code db' Heq _|intros _ e db' Heq];
      by rewrite Heq in Hcars.
  - split; [intros b code db'|intros Hpr e db'];
      unfold add_car, insert_car_with_emission;
      repeat (run; try case_match);
      intros; simplify_eq; try done; lia.
Qed.

End OutcomeFacts.

Lemma handle_answers_witness :
  (200 = 200 ∧ ∃ s, SpaceBody (SpaceJson.mk 1 (point 41.0 29.0) "not available" None)
                    = SpaceBody s)
  ∨ (200 = 400 ∧ SpaceBody (SpaceJson.mk 1 (point 41.0 29.0) "not available" None)
                 = ErrorBody "No status provided")
  ∨ (200 = 404 ∧ SpaceBody (SpaceJson.mk 1 (point 41.0 29.0) "not available" None)
                 = ErrorBody "Parking space not found").
Proof.
  eapply (@handle_answers flat_world
            (UpdateParkingSpaceStatus 1 (JObj {["status" := JBool false]}))
            demo_store).
  reflexivity.
Defined.

Lemma failed_request_writes_nothing_witness :
  (∀ db', @handle flat_world (UpdateParkingSpaceStatus 1 (JObj ∅)) demo_store
          = (Ok (ErrorBody "No status provided", 400), db') →
          db' = demo_store)
  ∧ (∀ db', @handle flat_world (AddCar (JObj ∅)) demo_store
            = (Raise (KeyError "residence_location"), db') →
            db' = demo_store).
Proof.
  split; intros db' Heq.
  - apply (proj1 (@failed_request_writes_nothing flat_world
                    (UpdateParkingSpaceStatus 1 (JObj ∅)) demo_store)
             _ 400 db' Heq).
    left. reflexivity.
  - apply (proj2 (@failed_request_writes_nothing flat_world
                    (AddCar (JObj ∅)) demo_store)
             eq_refl _ db' Heq).
Defined.

(** ** More on the status update *)

Lemma find_other_updated (f : ParkingSpace.t → ParkingSpace.t)
    (l : list ParkingSpace.t) (pk k : Z) :
  (∀ s, ParkingSpace.id (f s) = ParkingSpace.id s) →
  (∀ s, ParkingSpace.id s ≠ pk → f s = s) →
  k ≠ pk →
  List.find (λ s, ParkingSpace.id s =? k) (f <$> l)
  = List.find (λ s, ParkingSpace.id s =? k) l.
Proof.
  intros Hid Hother Hk. induction l as [|s l IH]; csimpl; [done|].
  rewrite Hid. destruct (Z.eqb_spec (ParkingSpace.id s) k) as [Heq|_]; [|done].
  rewrite Hother; [done|congruence].
Qed.

Section UpdateMore.
Context `{Collaborators}.

(** a status update with a boolean, run: the row is rewritten, then the
    refreshed object is serialized *)
Lemma update_with_boolean_run space_id parking_space (m : gmap string json)
    (b : bool) db :
  ParkingSpace_query_get db space_id = Ok (Some parking_space) →
  m !! "status" = Some (JBool b) →
  update_parking_space_status space_id (JObj m) db
  = (match ParkingSpace_pricing db parking_space with
     | Some _ => Raise AttributeError
     | None =>
         Ok (SpaceBody
               (SpaceJson.mk space_id (ParkingSpace.location parking_space)
                  (if b then "available" else "not available") None), 200)
     end,
     mkStore (cars db) (emissions db)
       ((λ s, if ParkingSpace.id s =? space_id
              then ParkingSpace.mk (ParkingSpace.id s)
                     (ParkingSpace.location s) b
              else s) <$> parking_spaces db)
       (pricings db) (car_pricings db)).
Proof.
  intros Hfound Hstatus.
  pose proof (query_get_Some _ _ _ Hfound) as (_ & _ & Hid). subst space_id.
  unfold update_parking_space_status. run. rewrite Hfound. run.
  rewrite Hstatus. run. unfold update_status, serialize. run.
  unfold ParkingSpace_pricing. simpl.
  by destruct (List.find _ (pricings db)); run.
Qed.

Lemma update_with_boolean_store space_id parking_space (m : gmap string json)
    (b : bool) db :
  ParkingSpace_query_get db space_id = Ok (Some parking_space) →
  m !! "status" = Some (JBool b) →
  (update_parking_space_status space_id (JObj m) db).2
  = mkStore (cars db) (emissions db)
      ((λ s, if ParkingSpace.id s =? space_id
             then ParkingSpace.mk (ParkingSpace.id s)
                    (ParkingSpace.location s) b
             else s) <$> parking_spaces db)
      (pricings db) (car_pricings db).
Proof.
  intros Hfound Hstatus.
  by rewrite (update_with_boolean_run _ parking_space m b db Hfound Hstatus).
Qed.

Lemma Boolean_column_raise (default : option bool) (v : json) (e : exn) :
  Boolean_column default v = Raise e →
  e = IntegrityError ∨ e = StatementError.
Proof.
  unfold Boolean_column.
  destruct v; repeat case_match; intros; simplify_eq; auto.
Qed.

Lemma get_raise (data : json) (key : string) (default : json) (e : exn) :
  get data key default = Raise e → e = AttributeError.
Proof. destruct data; simpl; try case_match; intros; by simplify_eq. Qed.

(** X4: the error outcomes of the status update: a key the engine cannot
    bind (2^63 or more) makes the lookup raise [OverflowError] with nothing
    written, whatever the body; the answer is 404 exactly when the lookup
    returns no row; and, for a row found and a JSON object as body, it is
    400 exactly when the status key is absent or null. *)
Theorem update_status_errors space_id (data : json) db :
  (sqlite_integer space_id = false →
   update_parking_space_status space_id data db = (Raise OverflowError, db))
  ∧ ((update_parking_space_status space_id data db).1
     = Ok (ErrorBody "Parking space not found", 404)
     ↔ ParkingSpace_query_get db space_id = Ok None)
  ∧ (∀ m parking_space,
       data = JObj m →
       ParkingSpace_query_get db space_id = Ok (Some parking_space) →
       ((update_parking_space_status space_id data db).1
        = Ok (ErrorBody "No status provided", 400)
        ↔ m !! "status" = None ∨ m !! "status" = Some JNull)).
Proof.
  split; [|split]; [|split|].
  - intros Hrange. unfold update_parking_space_status, ParkingSpace_query_get.
    run. by rewrite Hrange.
  - unfold update_parking_space_status, ParkingSpace_query_get.
    run. destruct (sqlite_integer space_id); [|done]. run.
    destruct (ParkingSpace_row db space_id) as [parking_space|]; run; [|done].
    destruct (get data "status" JNull) as [status|e]; run; [|done].
    destruct (is_None status); run; [done|].
    unfold update_status. destruct (Boolean_column None status); run; [|done].
    unfold serialize. run. by destruct (ParkingSpace_pricing _ _); run.
  - intros Hnone. unfold update_parking_space_status. run. by rewrite Hnone.
  - intros m parking_space -> Hfound. split.
    + unfold update_parking_space_status. run. rewrite Hfound. run.
      destruct (m !! "status") as [[]|] eqn:Hstatus; auto; run;
        unfold update_status, serialize; simpl;
        repeat (run; try case_match); intros; simplify_eq.
    + intros Hstatus.
      by rewrite (update_without_status _ parking_space m db Hfound Hstatus).
Qed.

(** X5: a status update with a boolean touches one field of one row: the
    addressed space is stored with the submitted status and its id and
    location, every other id looks up as before, and the car, emission and
    pricing tables are unchanged; this holds of the database left behind
    whether the request is answered or raises after the commit. *)
Theorem update_status_frame space_id parking_space (m : gmap string json)
    (b : bool) db :
  ParkingSpace_query_get db space_id = Ok (Some parking_space) →
  m !! "status" = Some (JBool b) →
  let db' := (update_parking_space_status space_id (JObj m) db).2 in
  ParkingSpace_query_get db' space_id
  = Ok (Some (ParkingSpace.mk space_id
                (ParkingSpace.location parking_space) b))
  ∧ (∀ k, k ≠ space_id →
          ParkingSpace_query_get db' k = ParkingSpace_query_get db k)
  ∧ ParkingSpace.id <$> parking_spaces db'
    = ParkingSpace.id <$> parking_spaces db
  ∧ ParkingSpace.location <$> parking_spaces db'
    = ParkingSpace.location <$> parking_spaces db
  ∧ cars db' = cars db ∧ emissions db' = emissions db
  ∧ pricings db' = pricings db ∧ car_pricings db' = car_pricings db.
Proof.
  intros Hfound Hstatus db'. unfold db'.
  rewrite (update_with_boolean_store _ parking_space m b db Hfound Hstatus).
  pose proof (query_get_Some _ _ _ Hfound) as (Hrange & Hrow & Hid).
  subst space_id.
  repeat split.
  - rewrite query_get_row by done. f_equal.
    apply (row_updated db _ parking_space b Hrow).
  - intros k Hk. unfold ParkingSpace_query_get.
    destruct (sqlite_integer k); [|done]. f_equal.
    unfold ParkingSpace_row. simpl.
    apply (find_other_updated _ _ (ParkingSpace.id parking_space));
      [intros s|intros s Hs|done].
    + by case_match.
    + by destruct (Z.eqb_spec (ParkingSpace.id s)
                     (ParkingSpace.id parking_space)).
  - simpl. rewrite <- list_fmap_compose. apply list_fmap_ext.
    intros _ s _. simpl. by case_match.
  - simpl. rewrite <- list_fmap_compose. apply list_fmap_ext.
    intros _ s _. simpl. by case_match.
Qed.

(** X6: the status update is idempotent: sending the same boolean status to
    the same space a second time gives the same answer as the first and
    leaves the database as the first left it. *)
Theorem update_status_idempotent space_id parking_space (m : gmap string json)
    (b : bool) db :
  ParkingSpace_query_get db space_id = Ok (Some parking_space) →
  m !! "status" = Some (JBool b) →
  let first := update_parking_space_status space_id (JObj m) db in
  update_parking_space_status space_id (JObj m) first.2 = first.
Proof.
  intros Hfound Hstatus first. unfold first.
  rewrite (update_with_boolean_run _ parking_space m b db Hfound Hstatus).
  simpl.
  pose proof (query_get_Some _ _ _ Hfound) as (Hrange & Hrow & Hid).
  subst space_id.
  rewrite (update_with_boolean_run _
             (ParkingSpace.mk (ParkingSpace.id parking_space)
                (ParkingSpace.location parking_space) b) m b);
    [| |done].
  - simpl. f_equal.
    apply (f_equal (λ l, mkStore _ _ l _ _)).
    rewrite <- list_fmap_compose. apply list_fmap_ext.
    intros _ s _. simpl.
    destruct (Z.eqb_spec (ParkingSpace.id s) (ParkingSpace.id parking_space))
      as [Heq|Hne]; simpl.
    + by rewrite Heq, Z.eqb_refl.
    + by destruct (Z.eqb_spec (ParkingSpace.id s)
                     (ParkingSpace.id parking_space)).
  - rewrite query_get_row by done. f_equal.
    apply (row_updated db _ parking_space b Hrow).
Qed.

End UpdateMore.

Section UpdateThenList.
Context `{Collaborators}.

(** X7: what the listing shows after a status update: for a well-formed
    database, an existing car and spaces whose distances to the car
    [geodesic] returns, once a space has been sent the boolean status [b],
    the listing is answered 200 and contains an entry with the id of that
    space exactly when [b] is true. *)
Theorem update_then_list (s : string) pk car space_id parking_space
    (m : gmap string json) (b : bool) db :
  wf_store db →
  pk_of_string s = Some pk →
  Car_query_get db pk = Some car →
  Forall (distances_known car) (parking_spaces db) →
  ParkingSpace_query_get db space_id = Ok (Some parking_space) →
  m !! "status" = Some (JBool b) →
  let db' := (update_parking_space_status space_id (JObj m) db).2 in
  ∃ entries,
    get_parking_spaces (Some s) db' = (Ok (SpaceListBody entries, 200), db')
    ∧ (space_id ∈ SpaceJson.id <$> entries ↔ b = true).
Proof.
  intros Hdb Hpk Hcar Hknown Hfound Hstatus db'. unfold db'.
  rewrite (update_with_boolean_store _ parking_space m b db Hfound Hstatus).
  destruct Hdb as (_ & _ & _ & Hemissions & _).
  pose proof (find_id_Some _ _ _ _ Hcar) as [Hin _].
  rewrite Forall_forall in Hemissions. rewrite Forall_forall in Hknown.
  destruct (Hemissions car Hin) as [emission Hemission].
  pose proof (query_get_Some _ _ _ Hfound) as (_ & Hrow & Hid).
  pose proof (find_id_Some _ _ _ _ Hrow) as [Hspace _].
  eexists. split.
  - apply (get_parking_spaces_found s pk car); [done|done|].
    apply Forall_forall. intros space [Htrue Hmem]%list_elem_of_filter.
    simpl in Hmem. apply list_elem_of_fmap in Hmem as (space0 & Hspace0 & Hin0).
    destruct (calculate_price_known
                (mkStore (cars db) (emissions db)
                   ((λ s0, if ParkingSpace.id s0 =? space_id
                           then ParkingSpace.mk (ParkingSpace.id s0)
                                  (ParkingSpace.location s0) b
                           else s0) <$> parking_spaces db)
                   (pricings db) (car_pricings db))
                space car emission Htrue) as [price Hprice]; [|done|eauto].
    destruct (Hknown space0 Hin0) as (d1 & d2 & Hd1 & Hd2).
    exists d1, d2. subst space. by case_match.
  - simpl. rewrite <- list_fmap_compose. split.
    + intros (sp & Hsp & [Htrue Hmem]%list_elem_of_filter)%list_elem_of_fmap.
      simpl in Hsp.
      apply list_elem_of_fmap in Hmem as (sp0 & -> & _).
      destruct (Z.eqb_spec (ParkingSpace.id sp0) space_id) as [_|Hne];
        simpl in *; [done|congruence].
    + intros ->. apply list_elem_of_fmap.
      exists (ParkingSpace.mk space_id (ParkingSpace.location parking_space)
                true).
      split; [done|]. apply list_elem_of_filter. split; [done|].
      apply list_elem_of_fmap. exists parking_space.
      split; [|done]. simpl. by rewrite Hid, Z.eqb_refl.
Qed.

(** X8: [serialize] reads [self.pricing.price], which [Pricing] does not
    have: a status update addressed to a space that has a pricing row
    commits the boolean status and then raises [AttributeError], so the
    request fails and the status is changed all the same. *)
Theorem update_status_with_pricing_row space_id parking_space pricing
    (m : gmap string json) (b : bool) db :
  ParkingSpace_query_get db space_id = Ok (Some parking_space) →
  ParkingSpace_pricing db parking_space = Some pricing →
  m !! "status" = Some (JBool b) →
  ∃ db',
    update_parking_space_status space_id (JObj m) db
    = (Raise AttributeError, db')
    ∧ ParkingSpace_query_get db' space_id
      = Ok (Some (ParkingSpace.mk space_id
                    (ParkingSpace.location parking_space) b)).
Proof.
  intros Hfound Hpricing Hstatus.
  rewrite (update_with_boolean_run _ parking_space m b db Hfound Hstatus).
  rewrite Hpricing. eexists. split; [done|].
  pose proof (query_get_Some _ _ _ Hfound) as (Hrange & Hrow & Hid).
  subst space_id.
  rewrite query_get_row by done. f_equal.
  apply (row_updated db _ parking_space b Hrow).
Qed.

End UpdateThenList.

Lemma update_status_errors_witness :
  @update_parking_space_status flat_world (2 ^ 63) (JObj ∅) demo_store
  = (Raise OverflowError, demo_store)
  ∧ ((@update_parking_space_status flat_world 1 (JObj ∅) demo_store).1
     = Ok (ErrorBody "No status provided", 400)
     ↔ (∅ : gmap string json) !! "status" = None
       ∨ (∅ : gmap string json) !! "status" = Some JNull).
Proof.
  split.
  - apply (proj1 (@update_status_errors flat_world (2 ^ 63) (JObj ∅)
                    demo_store)).
    reflexivity.
  - apply (proj2 (proj2 (@update_status_errors flat_world 1 (JObj ∅)
                           demo_store))
             ∅ free_space);
      reflexivity.
Defined.

Lemma update_status_frame_witness :
  let db' := (@update_parking_space_status flat_world 1
                (JObj {["status" := JBool false]}) demo_store).2 in
  ParkingSpace_query_get db' 1
  = Ok (Some (ParkingSpace.mk 1 (point 41.0 29.0) false))
  ∧ (∀ k, k ≠ 1 →
          ParkingSpace_query_get db' k = ParkingSpace_query_get demo_store k)
  ∧ ParkingSpace.id <$> parking_spaces db'
    = ParkingSpace.id <$> parking_spaces demo_store
  ∧ ParkingSpace.location <$> parking_spaces db'
    = ParkingSpace.location <$> parking_spaces demo_store
  ∧ cars db' = cars demo_store ∧ emissions db' = emissions demo_store
  ∧ pricings db' = pricings demo_store
  ∧ car_pricings db' = car_pricings demo_store.
Proof.
  apply (@update_status_frame flat_world 1 free_space
           {["status" := JBool false]} false demo_store);
    reflexivity.
Defined.

Lemma update_status_idempotent_witness :
  let first := @update_parking_space_status flat_world 1
                 (JObj {["status" := JBool false]}) demo_store in
  @update_parking_space_status flat_world 1
    (JObj {["status" := JBool false]}) first.2 = first.
Proof.
  apply (@update_status_idempotent flat_world 1 free_space
           {["status" := JBool false]} false demo_store);
    reflexivity.
Defined.

Lemma demo_all_distances_known :
  Forall (@distances_known flat_world demo_car) (parking_spaces demo_store).
Proof.
  repeat (apply Forall_cons; split; [eexists _, _; split; reflexivity|]).
  apply Forall_nil_2.
Qed.

Lemma update_then_list_witness :
  let db' := (@update_parking_space_status flat_world 2
                (JObj {["status" := JBool true]}) demo_store).2 in
  ∃ entries,
    @get_parking_spaces flat_world (Some "1") db'
    = (Ok (SpaceListBody entries, 200), db')
    ∧ (2 ∈ SpaceJson.id <$> entries ↔ true = true).
Proof.
  apply (@update_then_list flat_world "1" 1 demo_car 2 taken_space
           {["status" := JBool true]} true demo_store wf_demo_store
           eq_refl eq_refl demo_all_distances_known);
    reflexivity.
Defined.

Lemma update_status_with_pricing_row_witness :
  ∃ db',
    @update_parking_space_status flat_world 1
      (JObj {["status" := JBool false]}) priced_store
    = (Raise AttributeError, db')
    ∧ ParkingSpace_query_get db' 1
      = Ok (Some (ParkingSpace.mk 1 (point 41.0 29.0) false)).
Proof.
  apply (@update_status_with_pricing_row flat_world 1 free_space
           (Pricing.mk 1 1) {["status" := JBool false]} false priced_store);
    reflexivity.
Defined.

(** ** Bodies that are not what the routes expect *)

Section MalformedBodies.
Context `{Collaborators}.

(** X9: a body that is not a JSON object (null, a boolean, a number, a
    string, a list) makes the two creations raise [TypeError], from
    [data[...]], and the status update of a known space raise
    [AttributeError], from [data.get]; nothing is written. *)
Theorem non_object_body (data : json) db :
  (∀ m, data ≠ JObj m) →
  add_parking_space data db = (Raise TypeError, db)
  ∧ add_car data db = (Raise TypeError, db)
  ∧ (∀ space_id parking_space,
       ParkingSpace_query_get db space_id = Ok (Some parking_space) →
       update_parking_space_status space_id data db
       = (Raise AttributeError, db)).
Proof.
  intros Hdata. repeat split.
  - unfold add_parking_space. run. destruct data; try done. by destruct (Hdata m).
  - unfold add_car. run. destruct data; try done. by destruct (Hdata m).
  - intros space_id parking_space Hfound.
    unfold update_parking_space_status. run. rewrite Hfound. run.
    destruct data; try done. by destruct (Hdata m).
Qed.

(** X10: a create-car body whose [emission] is present and is not a JSON
    object makes [data['emission']['co2']] raise [TypeError]; no car is
    inserted. *)
Theorem add_car_emission_not_object (m : gmap string json) (v : json) db :
  is_Some (m !! "residence_location") →
  is_Some (m !! "current_location") →
  m !! "emission" = Some v →
  (∀ e, v ≠ JObj e) →
  add_car (JObj m) db = (Raise TypeError, db).
Proof.
  intros [r Hr] [c Hc] Hm Hv. unfold add_car.
  repeat (run; rewrite ?Hr, ?Hc, ?Hm).
  destruct v; try done. by destruct (Hv m0).
Qed.

Lemma PickleType_column_raise (v : json) (e : exn) :
  PickleType_column v = Raise e → e = IntegrityError.
Proof. unfold PickleType_column. destruct v; simpl; congruence. Qed.

Lemma Float_column_raise (v : json) (e : exn) :
  Float_column v = Raise e → e = IntegrityError ∨ e = StatementError.
Proof.
  unfold Float_column. destruct v; repeat case_match; intros; simplify_eq; auto.
Qed.

(** X11: the columns are [nullable=False]: a create-parking-space body whose
    location is null (its status absent or a boolean) raises
    [IntegrityError], and a create-car body in which a location or an
    emission value is null raises at the commit; in both cases no row is
    inserted, in particular no car without its emission row. *)
Theorem null_values_rejected (m : gmap string json) db :
  (m !! "location" = Some JNull →
   m !! "status" = None ∨ (∃ b, m !! "status" = Some (JBool b)) →
   add_parking_space (JObj m) db = (Raise IntegrityError, db))
  ∧ (∀ e r c x y,
       m !! "residence_location" = Some r →
       m !! "current_location" = Some c →
       m !! "emission" = Some (JObj e) →
       e !! "co2" = Some x →
       e !! "nox" = Some y →
       r = JNull ∨ c = JNull ∨ x = JNull ∨ y = JNull →
       ∃ exn, add_car (JObj m) db = (Raise exn, db)
              ∧ (exn = IntegrityError ∨ exn = StatementError)).
Proof.
  split.
  - intros Hlocation Hstatus. unfold add_parking_space. run.
    rewrite Hlocation. run. unfold insert_parking_space.
    by destruct Hstatus as [ -> | [b ->] ].
  - intros e r c x y Hr Hc Hm Hx Hy Hnull. unfold add_car.
    repeat (run; rewrite ?Hr, ?Hc, ?Hm, ?Hx, ?Hy).
    unfold insert_car_with_emission.
    destruct (PickleType_column r) as [r'|e1] eqn:Er; run;
      [|apply PickleType_column_raise in Er; eauto].
    destruct (PickleType_column c) as [c'|e2] eqn:Ec; run;
      [|apply PickleType_column_raise in Ec; eauto].
    destruct (Float_column x) as [x'|e3] eqn:Ex; run;
      [|apply Float_column_raise in Ex; eauto].
    destruct (Float_column y) as [y'|e4] eqn:Ey; run;
      [|apply Float_column_raise in Ey; eauto].
    by destruct Hnull as [ -> | [ -> | [ -> | -> ] ] ].
Qed.

(** X12: a create-parking-space body with a location and a boolean status
    creates the space with that status: the answer, 201, serializes it as
    "available" or "not available" with price null, the space is found under
    the returned id, and every space that was there is found as before. *)
Theorem add_parking_space_with_status (m : gmap string json)
    (location : json) (b : bool) db :
  wf_store db →
  m !! "location" = Some location →
  location ≠ JNull →
  m !! "status" = Some (JBool b) →
  ∃ new_space db',
    add_parking_space (JObj m) db
    = (Ok (SpaceBody
             (SpaceJson.mk (ParkingSpace.id new_space) location
                (if b then "available" else "not available") None),
           201), db')
    ∧ ParkingSpace.location new_space = location
    ∧ ParkingSpace.status new_space = b
    ∧ parking_spaces db' = parking_spaces db ++ [new_space]
    ∧ ParkingSpace_row db' (ParkingSpace.id new_space) = Some new_space
    ∧ (∀ k old, ParkingSpace_row db k = Some old →
                ParkingSpace_row db' k = Some old).
Proof.
  intros Hdb Hlocation Hvalue Hstatus.
  set (new_space :=
         ParkingSpace.mk (next_id (ParkingSpace.id <$> parking_spaces db))
           location b).
  exists new_space,
    (mkStore (cars db) (emissions db) (parking_spaces db ++ [new_space])
       (pricings db) (car_pricings db)).
  split; [|repeat split].
  - unfold add_parking_space. run. rewrite Hlocation. run.
    rewrite Hstatus. run. unfold insert_parking_space. run.
    rewrite (PickleType_column_value _ Hvalue). run.
    unfold serialize. run.
    rewrite pricing_of_fresh_space by done. run. reflexivity.
  - unfold ParkingSpace_row. simpl.
    rewrite find_app_None by apply find_id_fresh.
    simpl. by rewrite Z.eqb_refl.
  - intros k old Hold. unfold ParkingSpace_row in *. simpl.
    by apply find_app_Some.
Qed.

End MalformedBodies.

Lemma non_object_body_witness :
  @add_parking_space flat_world (JArr []) demo_store
  = (Raise TypeError, demo_store)
  ∧ @add_car flat_world (JArr []) demo_store = (Raise TypeError, demo_store)
  ∧ (∀ space_id parking_space,
       ParkingSpace_query_get demo_store space_id = Ok (Some parking_space) →
       @update_parking_space_status flat_world space_id (JArr []) demo_store
       = (Raise AttributeError, demo_store)).
Proof.
  apply (@non_object_body flat_world (JArr []) demo_store).
  intros m. discriminate.
Defined.

Lemma add_car_emission_not_object_witness :
  @add_car flat_world
    (JObj (<["emission" := JNull]> demo_car_body)) demo_store
  = (Raise TypeError, demo_store).
Proof.
  apply (@add_car_emission_not_object flat_world
           (<["emission" := JNull]> demo_car_body) JNull demo_store).
  - exists (point 41.0 29.0). reflexivity.
  - exists (point 41.0 29.005). reflexivity.
  - reflexivity.
  - intros e. discriminate.
Defined.

Lemma null_values_rejected_witness :
  @add_parking_space flat_world (JObj {["location" := JNull]}) demo_store
  = (Raise IntegrityError, demo_store)
  ∧ ∃ exn,
      @add_car flat_world
        (JObj (<["current_location" := JNull]> demo_car_body)) demo_store
      = (Raise exn, demo_store)
      ∧ (exn = IntegrityError ∨ exn = StatementError).
Proof.
  split.
  - apply (proj1 (@null_values_rejected flat_world
                    {["location" := JNull]} demo_store));
      [reflexivity|left; reflexivity].
  - apply (proj2 (@null_values_rejected flat_world
                    (<["current_location" := JNull]> demo_car_body) demo_store)
             demo_emission_body (point 41.0 29.0) JNull (JNum 1.0) (JNum 0.5));
      try reflexivity.
    right. left. reflexivity.
Defined.

Lemma add_parking_space_with_status_witness :
  ∃ new_space db',
    @add_parking_space flat_world
      (JObj (<["location" := far_point]> {["status" := JBool false]}))
      demo_store
    = (Ok (SpaceBody
             (SpaceJson.mk (ParkingSpace.id new_space) far_point
                "not available" None),
           201), db')
    ∧ ParkingSpace.location new_space = far_point
    ∧ ParkingSpace.status new_space = false
    ∧ parking_spaces db' = [free_space; taken_space; new_space]
    ∧ ParkingSpace_row db' (ParkingSpace.id new_space) = Some new_space
    ∧ (∀ k old, ParkingSpace_row demo_store k = Some old →
                ParkingSpace_row db' k = Some old).
Proof.
  apply (@add_parking_space_with_status flat_world
           (<["location" := far_point]> {["status" := JBool false]})
           far_point false demo_store wf_demo_store);
    [reflexivity|discriminate|reflexivity].
Defined.

(** ** What every database of the service satisfies *)

Lemma filter_key_unique {A : Type} (key : A → Z) (l : list A) (x : A) :
  NoDup (key <$> l) → x ∈ l → filter (λ y, key y = key x) l = [x].
Proof.
  induction l as [|z l IH]; csimpl; intros Hnd Hx.
  - by apply elem_of_nil in Hx.
  - apply NoDup_cons in Hnd as [Hz Hnd].
    apply elem_of_cons in Hx as [->|Hx].
    + rewrite filter_cons_True by done. f_equal.
      apply filter_none, Forall_forall. intros y Hy Hkey.
      destruct Hz. rewrite <- Hkey. by apply list_elem_of_fmap_2.
    + rewrite filter_cons_False; [by apply IH|].
      intros Hkey. destruct Hz. rewrite Hkey. by apply list_elem_of_fmap_2.
Qed.

Section DataModel.
Context `{Collaborators}.

(** the schema constraints, one emission row at most per car, and the two
    pricing tables empty *)
Lemma handle_data_model r :
  preserves (λ db, wf_store db
                   ∧ NoDup (Emission.car_id <$> emissions db)
                   ∧ pricings db = [] ∧ car_pricings db = [])
            (handle r).
Proof.
  apply handle_preserves.
  - intros location status db (Hdb & Hone & Hpr & Hcp).
    unfold insert_parking_space.
    destruct (_ ≫= _) as [[l s]|e]; simpl; [|done].
    split; [by apply wf_insert_parking_space|done].
  - intros parking_space status db (Hdb & Hone & Hpr & Hcp).
    unfold update_status.
    destruct (Boolean_column None status) as [b|e]; simpl; [|done].
    split; [|done]. apply wf_update_status; [|done]. intros s.
    by destruct (ParkingSpace.id s =? ParkingSpace.id parking_space).
  - intros r' c co2 nox db (Hdb & Hone & Hpr & Hcp).
    unfold insert_car_with_emission.
    destruct (_ ≫= _) as [[[[r'' c'] x] y]|e]; simpl; [|done].
    split; [by apply wf_insert_car|]. split; [|done].
    rewrite fmap_snoc. apply NoDup_app.
    split; [done|]. split; [|apply NoDup_singleton].
    intros k Hk ->%list_elem_of_singleton. simpl in Hk.
    apply list_elem_of_fmap in Hk as (e & Heq & He).
    destruct Hdb as (_ & _ & Hfk & _). rewrite Forall_forall in Hfk.
    specialize (Hfk e He). simpl in Hfk. rewrite <- Heq in Hfk.
    by apply next_id_fresh in Hfk.
Qed.

(** X13: in every database the service reaches, car keys and space keys are
    unique, every car has exactly one emission row, the one its [emission]
    relationship loads, every emission row belongs to a stored car, and the
    two pricing tables are empty. *)
Theorem reachable_data_model db :
  reachable db →
  NoDup (Car.id <$> cars db)
  ∧ NoDup (ParkingSpace.id <$> parking_spaces db)
  ∧ (∀ car, car ∈ cars db →
       ∃ emission,
         filter (λ e, Emission.car_id e = Car.id car) (emissions db)
         = [emission]
         ∧ Car_emission db car = Some emission)
  ∧ (∀ emission, emission ∈ emissions db →
       Emission.car_id emission ∈ Car.id <$> cars db)
  ∧ pricings db = [] ∧ car_pricings db = [].
Proof.
  intros Hreach.
  assert (Hinv : wf_store db
                 ∧ NoDup (Emission.car_id <$> emissions db)
                 ∧ pricings db = [] ∧ car_pricings db = []).
  { induction Hreach as [|db r _ IH]; [|by apply handle_data_model].
    repeat split; try done; simpl; constructor. }
  destruct Hinv as ((Hcars & Hspaces & Hfk & Hem & _) & Hone & Hpr & Hcp).
  repeat split; try done.
  - intros car Hcar. rewrite Forall_forall in Hem.
    destruct (Hem car Hcar) as [emission Hemission].
    exists emission. split; [|done].
    apply find_id_Some in Hemission as [Hin <-].
    by apply filter_key_unique.
  - by apply Forall_forall.
Qed.

(** X14: no request removes or rewrites a car or an emission row, nor
    removes a space or changes its id or location: the car table and the
    emission table before a request are prefixes of the tables after it, and
    so is the list of the (id, location) pairs of the spaces. *)
Theorem records_only_added (r : request) db :
  let db' := (handle r db).2 in
  cars db `prefix_of` cars db'
  ∧ emissions db `prefix_of` emissions db'
  ∧ ((λ s, (ParkingSpace.id s, ParkingSpace.location s)) <$> parking_spaces db)
    `prefix_of`
    ((λ s, (ParkingSpace.id s, ParkingSpace.location s))
     <$> parking_spaces db').
Proof.
  apply (handle_preserves
           (λ db', cars db `prefix_of` cars db'
                   ∧ emissions db `prefix_of` emissions db'
                   ∧ ((λ s, (ParkingSpace.id s, ParkingSpace.location s))
                      <$> parking_spaces db)
                     `prefix_of`
                     ((λ s, (ParkingSpace.id s, ParkingSpace.location s))
                      <$> parking_spaces db'))); [| | |done].
  - intros location status db1 (Hc & He & Hs). unfold insert_parking_space.
    destruct (_ ≫= _) as [[l s]|e]; simpl; [|done].
    repeat split; try done. rewrite fmap_snoc. by apply prefix_app_r.
  - intros parking_space status db1 (Hc & He & Hs). unfold update_status.
    destruct (Boolean_column None status) as [b|e]; simpl; [|done].
    repeat split; try done.
    match goal with
    | |- _ `prefix_of` ?f <$> (?g <$> ?l) =>
        replace (f <$> (g <$> l)) with (f <$> l); [done|]
    end.
    rewrite <- list_fmap_compose. apply list_fmap_ext.
    intros _ s _. simpl. by case_match.
  - intros r' c co2 nox db1 (Hc & He & Hs). unfold insert_car_with_emission.
    destruct (_ ≫= _) as [[[[r'' c'] x] y]|e]; simpl; [|done].
    repeat split; try done; by apply prefix_app_r.
Qed.

(** a read-only loop raises as soon as one element does *)
Lemma mapM_read_raise {A B : Type} (f : A → M B) (l : list A) (e : exn) db :
  Forall (λ x, (∃ y, f x db = (Ok y, db)) ∨ f x db = (Raise e, db)) l →
  Exists (λ x, f x db = (Raise e, db)) l →
  mapM f l db = (Raise e, db).
Proof.
  induction 1 as [|x l Hx Hl IH]; intros Hex; [by apply Exists_nil in Hex|].
  simpl. run. destruct Hx as [[y Hy]|Hraise].
  - rewrite Hy. run. apply Exists_cons in Hex as [Hhead|Htail];
      [congruence|]. by rewrite (IH Htail).
  - by rewrite Hraise.
Qed.

(** X15: the car listing joins every car to its emission row: when each car
    has one the answer is 200 with one summary per car, in order, made of the
    car's id and locations and its row's co2 and nox (the empty list when
    there is no car); when some car has none, [car.emission.co2] raises
    [AttributeError] and there is no answer. *)
Theorem get_cars_outcome db :
  (Forall (λ car, is_Some (Car_emission db car)) (cars db) →
   ∃ summaries,
     get_cars db = (Ok (CarListBody summaries, 200), db)
     ∧ Forall2 (λ car summary,
                  ∃ emission, Car_emission db car = Some emission
                              ∧ summary = car_summary car emission)
               (cars db) summaries)
  ∧ (Exists (λ car, Car_emission db car = None) (cars db) →
     get_cars db = (Raise AttributeError, db)).
Proof.
  split.
  - intros Hall. eexists. split; [by apply get_cars_ok|].
    apply Forall2_fmap_r, Forall_Forall2_diag.
    eapply Forall_impl; [exact Hall|]. intros car [e He].
    exists e. by rewrite He.
  - intros Hex. unfold get_cars. run.
    rewrite (mapM_read_raise _ _ AttributeError); [done| |].
    + apply Forall_forall. intros car _. run.
      destruct (Car_emission db car); run; eauto.
    + eapply Exists_impl; [exact Hex|]. intros car Hnone. run.
      by rewrite Hnone.
Qed.

(** X16: the space listing prices space by space, in order: for an
    existing car, when no space is available the answer is 200 with the
    empty list, whether or not the car has an emission row and whatever the
    locations; when the first available space is one whose distance to the
    car [geodesic] raises on, that exception ends the request; when both its
    distances are returned and the car has no emission row,
    [car.emission.co2] raises [AttributeError]. *)
Theorem get_parking_spaces_edges (s : string) pk car db :
  pk_of_string s = Some pk →
  Car_query_get db pk = Some car →
  (Forall (λ space, ParkingSpace.status space = false) (parking_spaces db) →
   get_parking_spaces (Some s) db = (Ok (SpaceListBody [], 200), db))
  ∧ (∀ space rest,
       filter (λ space, ParkingSpace.status space = true) (parking_spaces db)
       = space :: rest →
       (∀ e, calculate_distance (Car.current_location car)
                                (ParkingSpace.location space) = Raise e →
             get_parking_spaces (Some s) db = (Raise e, db))
       ∧ (distances_known car space →
          Car_emission db car = None →
          get_parking_spaces (Some s) db = (Raise AttributeError, db))).
Proof.
  intros Hpk Hcar. split.
  - intros Hnone. unfold get_parking_spaces. run.
    rewrite Hpk. simpl. rewrite Hcar. run.
    rewrite filter_none; [done|].
    eapply Forall_impl; [exact Hnone|]. intros space Hfalse. congruence.
  - intros space rest Hfilter.
    assert (Hstatus : ParkingSpace.status space = true).
    { assert (Hin : space ∈ filter (λ space, ParkingSpace.status space = true)
                              (parking_spaces db))
        by (rewrite Hfilter; apply list_elem_of_here).
      by apply list_elem_of_filter in Hin as [? _]. }
    split.
    + intros e He. unfold get_parking_spaces. run.
      rewrite Hpk. simpl. rewrite Hcar. run. rewrite Hfilter. simpl. run.
      unfold calculate_price. by rewrite Hstatus, He.
    + intros (d1 & d2 & Hd1 & Hd2) Hemission. unfold get_parking_spaces. run.
      rewrite Hpk. simpl. rewrite Hcar. run. rewrite Hfilter. simpl. run.
      unfold calculate_price. rewrite Hstatus, Hd1. simpl. rewrite Hd2. simpl.
      by rewrite Hemission.
Qed.

End DataModel.

Lemma reachable_data_model_witness :
  NoDup (Car.id <$> cars demo_store)
  ∧ NoDup (ParkingSpace.id <$> parking_spaces demo_store)
  ∧ (∀ car, car ∈ cars demo_store →
       ∃ emission,
         filter (λ e, Emission.car_id e = Car.id car) (emissions demo_store)
         = [emission]
         ∧ Car_emission demo_store car = Some emission)
  ∧ (∀ emission, emission ∈ emissions demo_store →
       Emission.car_id emission ∈ Car.id <$> cars demo_store)
  ∧ pricings demo_store = [] ∧ car_pricings demo_store = [].
Proof.
  apply (@reachable_data_model flat_world demo_store demo_store_reachable).
Defined.

Lemma get_cars_outcome_witness :
  (∃ summaries,
     get_cars demo_store = (Ok (CarListBody summaries, 200), demo_store)
     ∧ Forall2 (λ car summary,
                  ∃ emission, Car_emission demo_store car = Some emission
                              ∧ summary = car_summary car emission)
               (cars demo_store) summaries)
  ∧ get_cars orphan_store = (Raise AttributeError, orphan_store).
Proof.
  split.
  - apply (proj1 (get_cars_outcome demo_store)).
    by apply (bool_decide_unpack _).
  - apply (proj2 (get_cars_outcome orphan_store)).
    apply Exists_cons_hd. reflexivity.
Defined.

Lemma get_parking_spaces_edges_witness :
  @get_parking_spaces flat_world (Some "1")
    (mkStore [demo_car] [] [taken_space] [] [])
  = (Ok (SpaceListBody [], 200), mkStore [demo_car] [] [taken_space] [] [])
  ∧ @get_parking_spaces flat_world (Some "1")
      (mkStore [demo_car] [demo_emission]
         [ParkingSpace.mk 1 (JStr "nowhere") true] [] [])
    = (Raise ValueError,
       mkStore [demo_car] [demo_emission]
         [ParkingSpace.mk 1 (JStr "nowhere") true] [] [])
  ∧ @get_parking_spaces flat_world (Some "1") orphan_store
    = (Raise AttributeError, orphan_store).
Proof.
  split; [|split].
  - apply (proj1 (@get_parking_spaces_edges flat_world "1" 1 demo_car
                    (mkStore [demo_car] [] [taken_space] [] [])
                    eq_refl eq_refl)).
    apply Forall_cons. split; [reflexivity|apply Forall_nil_2].
  - apply (proj1 (proj2 (@get_parking_spaces_edges flat_world "1" 1 demo_car
                           (mkStore [demo_car] [demo_emission]
                              [ParkingSpace.mk 1 (JStr "nowhere") true] [] [])
                           eq_refl eq_refl)
                    (ParkingSpace.mk 1 (JStr "nowhere") true) [] eq_refl)).
    reflexivity.
  - apply (proj2 (proj2 (@get_parking_spaces_edges flat_world "1" 1 demo_car
                           orphan_store eq_refl eq_refl)
                    free_space [] eq_refl)).
    + eexists _, _. split; reflexivity.
    + reflexivity.
Defined.

(** ** How the routes compose *)

Section Composition.
Context `{Collaborators}.

Lemma add_car_inv (data : json) db (answer : response) db' :
  add_car data db = (Ok answer, db') →
  ∃ new_car new_emission,
    db' = mkStore (cars db ++ [new_car]) (emissions db ++ [new_emission])
            (parking_spaces db) (pricings db) (car_pricings db).
Proof.
  unfold add_car, insert_car_with_emission.
  repeat (run; try case_match); intros; simplify_eq; eauto.
Qed.

Lemma add_parking_space_inv (data : json) db (answer : response) db' :
  add_parking_space data db = (Ok answer, db') →
  ∃ new_space,
    db' = mkStore (cars db) (emissions db) (parking_spaces db ++ [new_space])
            (pricings db) (car_pricings db)
    ∧ ParkingSpace.id new_space
      = next_id (ParkingSpace.id <$> parking_spaces db)
    ∧ answer
      = (SpaceBody
           (SpaceJson.mk (ParkingSpace.id new_space)
              (ParkingSpace.location new_space)
              (if ParkingSpace.status new_space
               then "available" else "not available")
              None), 201).
Proof.
  unfold add_parking_space. run.
  destruct (getitem data "location") as [location|]; run; [|done].
  destruct (get data "status" (JBool true)) as [status|]; run; [|done].
  unfold insert_parking_space.
  destruct (_ ≫= _) as [[l b]|]; run; [|done].
  unfold serialize. run.
  destruct (ParkingSpace_pricing _ _); run; [done|].
  intros [= <- <-]. eauto.
Qed.

(** a read-only loop is the loop over its results *)
Lemma mapM_read_pure {A B C : Type} (g : A → Store → result B)
    (h : A → B → C) (l : list A) db :
  mapM (λ x, p ← read (g x); mret (h x p)) l db
  = (mapM (λ x, p ← g x db; mret (h x p)) l, db).
Proof.
  induction l as [|x l IH]; simpl; [done|].
  rewrite !M_bind_run. unfold read at 1.
  destruct (g x db) as [p|e]; simpl; [|done].
  rewrite M_bind_run, IH.
  by destruct (mapM (λ x0, g x0 db ≫= _) l) as [k|e].
Qed.

Lemma mapM_result_ext {A B : Type} (f g : A → result B) (l : list A) :
  (∀ x, f x = g x) → mapM f l = mapM g l.
Proof.
  intros Hfg. induction l as [|x l IH]; simpl; [done|].
  by rewrite Hfg, IH.
Qed.

(** what the listing answers depends on the database through the car found,
    the available spaces and the emission row of the car *)
Lemma get_parking_spaces_outcome (s : string) db :
  (get_parking_spaces (Some s) db).1
  = match pk ← pk_of_string s; Car_query_get db pk with
    | None => Ok (ErrorBody "Car not found", 404)
    | Some car =>
        entries ←
          mapM (λ space,
                  price ← calculate_price db space car;
                  mret (SpaceJson.mk (ParkingSpace.id space)
                          (ParkingSpace.location space) "available" price))
               (filter (λ space, ParkingSpace.status space = true)
                       (parking_spaces db));
        mret (SpaceListBody entries, 200)
    end.
Proof.
  unfold get_parking_spaces. rewrite M_bind_run. unfold query at 1. simpl.
  destruct (pk_of_string s ≫= _) as [car|]; [|done].
  rewrite M_bind_run. unfold query at 1. simpl. rewrite M_bind_run.
  rewrite (mapM_read_pure (λ space db, calculate_price db space car)
             (λ space price,
                SpaceJson.mk (ParkingSpace.id space)
                  (ParkingSpace.location space) "available" price)).
  by destruct (mapM _ _) as [entries|e].
Qed.

Lemma calculate_price_same_emission db db' space car :
  Car_emission db' car = Car_emission db car →
  calculate_price db' space car = calculate_price db space car.
Proof. intros Hemission. unfold calculate_price. by rewrite Hemission. Qed.

(** X17: registering a car does not change what another car is quoted: for
    a well-formed database and an existing car, the listing answered after a
    successful create-car request is the listing answered before it. *)
Theorem add_car_keeps_listings (s : string) pk car (data : json) db
    (answer : response) db' :
  wf_store db →
  pk_of_string s = Some pk →
  Car_query_get db pk = Some car →
  add_car data db = (Ok answer, db') →
  (get_parking_spaces (Some s) db').1 = (get_parking_spaces (Some s) db).1.
Proof.
  intros Hdb Hpk Hcar (new_car & new_emission & ->)%add_car_inv.
  destruct Hdb as (_ & _ & _ & Hemissions & _).
  pose proof (find_id_Some _ _ _ _ Hcar) as [Hin _].
  rewrite Forall_forall in Hemissions.
  destruct (Hemissions car Hin) as [emission Hemission].
  rewrite !get_parking_spaces_outcome. rewrite Hpk. simpl. rewrite Hcar.
  assert (Hcar' : Car_query_get
                    (mkStore (cars db ++ [new_car])
                       (emissions db ++ [new_emission]) (parking_spaces db)
                       (pricings db) (car_pricings db)) pk = Some car).
  { unfold Car_query_get in *. simpl. by apply find_app_Some. }
  rewrite Hcar'. simpl.
  erewrite mapM_result_ext; [done|].
  intros space. simpl. rewrite (calculate_price_same_emission db); [done|].
  unfold Car_emission in *. simpl. rewrite Hemission.
  by apply find_app_Some.
Qed.

Lemma quote_same_emission db db' car space :
  Car_emission db' car = Car_emission db car →
  quote db' car space = quote db car space.
Proof.
  intros Hemission. unfold quote.
  by rewrite (calculate_price_same_emission db db').
Qed.

(** X18: creating a space extends the listing at its end and nowhere else:
    for a well-formed database and an existing car, after a successful
    create-parking-space request, the distances of the car to the available
    spaces being returned, the listing is the one before, followed by one
    entry for the new space, with the id and location of the answer and the
    price [calculate_price] gives, when it was created available, and by
    nothing when it was not. *)
Theorem add_parking_space_then_list (s : string) pk car (data : json) db
    (created : SpaceJson.t) db' :
  wf_store db →
  pk_of_string s = Some pk →
  Car_query_get db pk = Some car →
  add_parking_space data db = (Ok (SpaceBody created, 201), db') →
  Forall (distances_known car)
         (filter (λ space, ParkingSpace.status space = true)
                 (parking_spaces db')) →
  ∃ before extra,
    get_parking_spaces (Some s) db = (Ok (SpaceListBody before, 200), db)
    ∧ get_parking_spaces (Some s) db'
      = (Ok (SpaceListBody (before ++ extra), 200), db')
    ∧ ((SpaceJson.status created = "available"
        ∧ ∃ new_space price,
            calculate_price db' new_space car = Ok (Some price)
            ∧ ParkingSpace_row db' (SpaceJson.id created) = Some new_space
            ∧ extra = [SpaceJson.mk (SpaceJson.id created)
                         (SpaceJson.location created) "available"
                         (Some price)])
       ∨ (SpaceJson.status created = "not available" ∧ extra = [])).
Proof.
  intros Hdb Hpk Hcar Hadd Hknown.
  apply add_parking_space_inv in Hadd as (new_space & -> & Hid & [= ->]).
  destruct Hdb as (_ & _ & _ & Hemissions & _).
  pose proof (find_id_Some _ _ _ _ Hcar) as [Hin _].
  rewrite Forall_forall in Hemissions.
  destruct (Hemissions car Hin) as [emission Hemission].
  set (db' := mkStore (cars db) (emissions db)
                (parking_spaces db ++ [new_space]) (pricings db)
                (car_pricings db)) in *.
  assert (Hprices :
            Forall (λ space, ∃ price, calculate_price db' space car = Ok price)
              (filter (λ space, ParkingSpace.status space = true)
                      (parking_spaces db'))).
  { apply Forall_forall. intros space Hspace.
    pose proof Hspace as [Hstatus _]%list_elem_of_filter.
    rewrite Forall_forall in Hknown.
    destruct (calculate_price_known db' space car emission Hstatus
                (Hknown space Hspace) Hemission) as [price Hprice].
    eauto. }
  assert (Hsame : ∀ space, calculate_price db' space car
                           = calculate_price db space car)
    by (intros space; by apply calculate_price_same_emission).
  exists ((λ space,
             SpaceJson.mk (ParkingSpace.id space)
               (ParkingSpace.location space) "available" (quote db car space))
          <$> filter (λ space, ParkingSpace.status space = true)
                     (parking_spaces db)),
         ((λ space,
             SpaceJson.mk (ParkingSpace.id space)
               (ParkingSpace.location space) "available" (quote db' car space))
          <$> filter (λ space, ParkingSpace.status space = true) [new_space]).
  split; [|split].
  - apply (get_parking_spaces_found s pk car db Hpk Hcar).
    simpl in Hprices. rewrite filter_app in Hprices.
    apply Forall_app in Hprices as [Hprices _].
    eapply Forall_impl; [exact Hprices|]. intros space [price Hprice].
    exists price. by rewrite <- Hsame.
  - rewrite (get_parking_spaces_found s pk car db' Hpk Hcar Hprices).
    simpl. rewrite filter_app, fmap_app.
    apply (f_equal (λ l, (Ok (SpaceListBody l, 200), db'))).
    apply (f_equal2 app); [|done].
    apply list_fmap_ext. intros _ space _.
    by rewrite (quote_same_emission db db').
  - rewrite Forall_forall in Hprices.
    destruct new_space as [id location [|]]; simpl in *.
    + left. split; [done|].
      destruct (calculate_price_known db'
                  (ParkingSpace.mk id location true) car emission) as [price Hprice];
        [done| |done|].
      { rewrite Forall_forall in Hknown. apply Hknown.
        simpl. rewrite filter_app. apply elem_of_app. right.
        rewrite filter_cons_True by done. apply list_elem_of_here. }
      exists (ParkingSpace.mk id location true), price.
      split; [done|]. split.
      * unfold ParkingSpace_row. simpl. rewrite Hid.
        rewrite find_app_None by apply find_id_fresh.
        simpl. by rewrite Z.eqb_refl.
      * unfold quote. by rewrite Hprice.
    + right. by split.
Qed.

(** X19: a car is quoted from what was submitted for it: for a well-formed
    database, after a create-car request carrying non-null locations and the
    numbers co2 and nox (not NaN), the distances of the submitted locations
    to the available spaces being returned, the listing asked with the id of
    the new car is answered 200 with one entry per available space, priced
    by the design formula from those distances and the co2 and nox stored
    for the car. *)
Theorem add_car_then_list (m e : gmap string json) (residence current : json)
    (co2 nox : float) (s : string) db :
  wf_store db →
  m !! "residence_location" = Some residence → residence ≠ JNull →
  m !! "current_location" = Some current → current ≠ JNull →
  m !! "emission" = Some (JObj e) →
  e !! "co2" = Some (JNum co2) → (co2 =? co2)%float = true →
  e !! "nox" = Some (JNum nox) → (nox =? nox)%float = true →
  pk_of_string s = Some (next_id (Car.id <$> cars db)) →
  Forall (λ space,
            ∃ d1 d2,
              calculate_distance current (ParkingSpace.location space) = Ok d1
              ∧ calculate_distance residence (ParkingSpace.location space)
                = Ok d2)
         (filter (λ space, ParkingSpace.status space = true)
                 (parking_spaces db)) →
  ∃ db' entries,
    add_car (JObj m) db
    = (Ok (IdBody (next_id (Car.id <$> cars db)), 201), db')
    ∧ get_parking_spaces (Some s) db'
      = (Ok (SpaceListBody entries, 200), db')
    ∧ Forall2 (λ space entry,
                 ∃ d1 d2,
                   calculate_distance current (ParkingSpace.location space)
                   = Ok d1
                   ∧ calculate_distance residence
                       (ParkingSpace.location space) = Ok d2
                   ∧ entry
                     = SpaceJson.mk (ParkingSpace.id space)
                         (ParkingSpace.location space) "available"
                         (Some (spec_price d1 d2 (Float_stored co2)
                                  (Float_stored nox))))
              (filter (λ space, ParkingSpace.status space = true)
                      (parking_spaces db))
              entries.
Proof.
  intros Hdb Hr Hrv Hc Hcv Hm Hco2 Hco2v Hnox Hnoxv Hpk Hknown.
  set (new_car := Car.mk (next_id (Car.id <$> cars db)) residence current).
  set (new_emission :=
         Emission.mk (next_id (Emission.id <$> emissions db))
           (Float_stored co2) (Float_stored nox) (Car.id new_car)).
  set (db' := mkStore (cars db ++ [new_car]) (emissions db ++ [new_emission])
                (parking_spaces db) (pricings db) (car_pricings db)).
  assert (Hcar : Car_query_get db' (next_id (Car.id <$> cars db))
                 = Some new_car).
  { unfold Car_query_get. simpl.
    rewrite find_app_None by apply find_id_fresh.
    simpl. by rewrite Z.eqb_refl. }
  assert (Hemission : Car_emission db' new_car = Some new_emission).
  { unfold Car_emission. simpl.
    rewrite find_app_None by by apply emission_of_fresh_car.
    simpl. by rewrite Z.eqb_refl. }
  assert (Hprices :
            Forall (λ space,
                      ∃ d1 d2,
                        calculate_distance current
                          (ParkingSpace.location space) = Ok d1
                        ∧ calculate_distance residence
                            (ParkingSpace.location space) = Ok d2
                        ∧ calculate_price db' space new_car
                          = Ok (Some (spec_price d1 d2 (Float_stored co2)
                                        (Float_stored nox))))
              (filter (λ space, ParkingSpace.status space = true)
                      (parking_spaces db))).
  { apply Forall_forall. intros space Hspace.
    pose proof Hspace as [Hstatus _]%list_elem_of_filter.
    rewrite Forall_forall in Hknown.
    destruct (Hknown space Hspace) as (d1 & d2 & Hd1 & Hd2).
    exists d1, d2. split; [done|]. split; [done|].
    by apply (calculate_price_formula db' space new_car new_emission d1 d2). }
  exists db'. eexists. split; [|split].
  - unfold add_car. repeat (run; rewrite ?Hr, ?Hc, ?Hm, ?Hco2, ?Hnox).
    unfold insert_car_with_emission.
    rewrite !PickleType_column_value by done.
    rewrite !Float_column_number by done. run. reflexivity.
  - apply (get_parking_spaces_found s _ new_car db' Hpk Hcar).
    eapply Forall_impl; [exact Hprices|].
    intros space (d1 & d2 & _ & _ & Hprice). eauto.
  - apply Forall2_fmap_r, Forall_Forall2_diag.
    eapply Forall_impl; [exact Hprices|].
    intros space (d1 & d2 & Hd1 & Hd2 & Hprice). simpl.
    exists d1, d2. split; [done|]. split; [done|].
    unfold quote. by rewrite Hprice.
Qed.

End Composition.

Lemma add_car_keeps_listings_witness :
  (@get_parking_spaces flat_world (Some "1")
     (@add_car flat_world (JObj demo_car_body) demo_store).2).1
  = (@get_parking_spaces flat_world (Some "1") demo_store).1.
Proof.
  eapply (@add_car_keeps_listings flat_world "1" 1 demo_car
            (JObj demo_car_body) demo_store _ _ wf_demo_store);
    reflexivity.
Defined.

Lemma add_parking_space_then_list_witness :
  ∃ before extra,
    @get_parking_spaces flat_world (Some "1") demo_store
    = (Ok (SpaceListBody before, 200), demo_store)
    ∧ @get_parking_spaces flat_world (Some "1")
        (@add_parking_space flat_world (JObj {["location" := far_point]})
           demo_store).2
      = (Ok (SpaceListBody (before ++ extra), 200),
         (@add_parking_space flat_world (JObj {["location" := far_point]})
            demo_store).2)
    ∧ (("available" = "available"
        ∧ ∃ new_space price,
            @calculate_price flat_world
              (@add_parking_space flat_world
                 (JObj {["location" := far_point]}) demo_store).2
              new_space demo_car = Ok (Some price)
            ∧ ParkingSpace_row
                (@add_parking_space flat_world
                   (JObj {["location" := far_point]}) demo_store).2 3
              = Some new_space
            ∧ extra = [SpaceJson.mk 3 far_point "available" (Some price)])
       ∨ ("available" = "not available" ∧ extra = [])).
Proof.
  apply (@add_parking_space_then_list flat_world "1" 1 demo_car
           (JObj {["location" := far_point]}) demo_store
           (SpaceJson.mk 3 far_point "available" None) _ wf_demo_store);
    try reflexivity.
  repeat (apply Forall_cons; split; [eexists _, _; split; reflexivity|]).
  apply Forall_nil_2.
Defined.

Lemma add_car_then_list_witness :
  ∃ db' entries,
    @add_car flat_world (JObj demo_car_body) demo_store
    = (Ok (IdBody 2, 201), db')
    ∧ @get_parking_spaces flat_world (Some "2") db'
      = (Ok (SpaceListBody entries, 200), db')
    ∧ Forall2 (λ space entry,
                 ∃ d1 d2,
                   @calculate_distance flat_world (point 41.0 29.005)
                     (ParkingSpace.location space) = Ok d1
                   ∧ @calculate_distance flat_world (point 41.0 29.0)
                       (ParkingSpace.location space) = Ok d2
                   ∧ entry
                     = SpaceJson.mk (ParkingSpace.id space)
                         (ParkingSpace.location space) "available"
                         (Some (spec_price d1 d2 (Float_stored 1.0)
                                  (Float_stored 0.5))))
              [free_space] entries.
Proof.
  apply (@add_car_then_list flat_world demo_car_body demo_emission_body
           (point 41.0 29.0) (point 41.0 29.005) 1.0%float 0.5%float "2"
           demo_store wf_demo_store);
    try first [reflexivity | discriminate].
  apply Forall_cons. split; [|apply Forall_nil_2].
  eexists _, _. split; reflexivity.
Defined.

(** ** The threshold of the discounts *)

Lemma float_leb_not_ltb (x y : float) :
  (x <=? y)%float = true → (y <? x)%float = false.
Proof.
  rewrite leb_spec, ltb_spec. unfold SFleb, SFltb.
  rewrite (SFcompare_antisym (Prim2SF x) (Prim2SF y)).
  by destruct (SFcompare (Prim2SF x) (Prim2SF y)) as [[]|].
Qed.

Section Threshold.
Context `{Collaborators}.

(** X20: the discounts stop at 2.0 km sharp: for an available space that
    lies 2.0 km or more both from the car and from its residence, 2.0 km
    itself included, the price is the base price 10.0 plus 0.1 times
    (co2 + nox), with no discount. *)
Theorem calculate_price_no_discount db space car emission (d1 d2 : float) :
  ParkingSpace.status space = true →
  Car_emission db car = Some emission →
  calculate_distance (Car.current_location car)
                     (ParkingSpace.location space) = Ok d1 →
  calculate_distance (Car.residence_location car)
                     (ParkingSpace.location space) = Ok d2 →
  (2.0 <=? d1)%float = true →
  (2.0 <=? d2)%float = true →
  calculate_price db space car
  = Ok (Some (10.0 + (Emission.co2 emission + Emission.nox emission) * 0.1)%float).
Proof.
  intros Hstatus Hemission Hd1 Hd2 Hcar%float_leb_not_ltb
    Hres%float_leb_not_ltb.
  unfold calculate_price. rewrite Hstatus, Hd1. simpl. rewrite Hd2. simpl.
  by rewrite Hemission, Hcar, Hres.
Qed.

End Threshold.

Lemma calculate_price_no_discount_witness :
  @calculate_price flat_world demo_store
    (ParkingSpace.mk 3 far_point true) demo_car
  = Ok (Some (10.0 + (3.0 + 2.0) * 0.1)%float).
Proof.
  eapply (@calculate_price_no_discount flat_world demo_store
            (ParkingSpace.mk 3 far_point true) demo_car demo_emission);
    reflexivity.
Defined.
